(** * Contact API: a shallow embedding of [server.js] and its collaborators

    The development follows the request handlers of the portfolio backend:
    the contact pipeline ([app.post("/api/contact")]), the admin guard
    ([adminAuth]) and the admin listing ([app.get("api/admin/messages")]),
    together with [utils/logger.js].  Effects (log lines, provider calls,
    rows of the [messages] table, rate-limit counters) are threaded through
    an explicit [World]; the third-party services (the Resend provider, the
    PostgreSQL pool, validator's [isEmail]) are Section variables.

    Strings are Rocq strings: one [ascii] stands for one UTF-16 code unit
    below 256, so [String.length] is JavaScript's [.length] and is also what
    validator's [isLength] counts (no surrogate pair, no variation selector
    occurs in that range).  Numbers are integers ([Z]). *)

From Stdlib Require Import ZArith Lia Ascii Sorted.
From stdpp Require Import base strings list gmap pretty sorting.

Local Open Scope Z_scope.

(** ** JavaScript values and completions *)

(** The values a field of the parsed JSON body can hold; [JUndefined] is an
    absent key.  Arrays and objects as field values are outside the
    embedding. *)
Inductive JSValue : Type :=
  | JUndefined
  | JNull
  | JBool (b : bool)
  | JNumber (n : Z)
  | JString (s : string).

#[global] Instance JSValue_eq_dec : EqDecision JSValue.
Proof. solve_decision. Defined.

(** ToBoolean, as used by [if (v)], [!v] and [a || b]. *)
Definition truthy (v : JSValue) : bool :=
  match v with
  | JUndefined | JNull => false
  | JBool b => b
  | JNumber n => negb (n =? 0)
  | JString s => negb (String.eqb s "")
  end.

(** A statement either completes with a value or throws. *)
Inductive Completion (A : Type) : Type :=
  | Normal (a : A)
  | Throw (message : string).
Arguments Normal {A} a.
Arguments Throw {A} message.

#[global] Instance Completion_bind : MBind Completion :=
  fun A B k c =>
    match c with
    | Normal a => k a
    | Throw m => Throw m
    end.

#[global] Instance Completion_fmap : FMap Completion :=
  fun A B f c =>
    match c with
    | Normal a => Normal (f a)
    | Throw m => Throw m
    end.

(** ** validator.js

    Modelled from the spec: the [validator] package is a dependency that is
    not part of the source tree.  The spec describes [escape] as replacing
    [<], [>], [&], quotes, etc. by their entities; the package does so with
    eight successive global replacements, [&] first.  Every function of the
    package starts with [assertString], which throws a [TypeError] on
    anything that is not a string. *)

Definition typeof_name (v : JSValue) : string :=
  match v with
  | JUndefined => "undefined"
  | JNull => "null"
  | JBool _ => "boolean"
  | JNumber _ => "number"
  | JString _ => "string"
  end.

Definition assertString (input : JSValue) : Completion string :=
  match input with
  | JString s => Normal s
  | v => Throw ("Expected a string but received a " +:+ typeof_name v)
  end.

(** [str.replace(/c/g, ent)] for a single character [c]. *)
Fixpoint replace_all (c : ascii) (ent : string) (s : string) : string :=
  match s with
  | EmptyString => EmptyString
  | String a r =>
      if Ascii.eqb a c then ent +:+ replace_all c ent r
      else String a (replace_all c ent r)
  end.

Definition escape_string (str : string) : string :=
  replace_all "`" "&#96;"
    (replace_all "\" "&#x5C;"
      (replace_all "/" "&#x2F;"
        (replace_all ">" "&gt;"
          (replace_all "<" "&lt;"
            (replace_all "'" "&#x27;"
              (replace_all "034" "&quot;"
                (replace_all "&" "&amp;" str))))))).

Definition validator_escape (str : JSValue) : Completion string :=
  s ← assertString str; Normal (escape_string s).

(** [validator.isLength(str, { max })]: [min] defaults to 0. *)
Definition validator_isLength (str : JSValue) (max : nat) : Completion bool :=
  s ← assertString str; Normal (bool_decide (String.length s ≤ max)%nat).

(** ** Requests, responses and the world the handlers act on *)

(** [req.body] of the contact route, destructured on line 55. *)
Record Payload : Type := {
  firstName : JSValue;
  lastName : JSValue;
  email : JSValue;
  subject : JSValue;
  message : JSValue;
  company : JSValue;
}.

(** A contact request: the parsed body, [req.ip], and the instant (in
    milliseconds) at which it is served. *)
Record ContactRequest : Type := {
  body : Payload;
  ip : string;
  now : Z;
}.

(** The argument of [resend.emails.send]. *)
Record Email : Type := {
  mail_from : string;
  mail_to : list (option string);
  mail_reply_to : JSValue;
  mail_subject : string;
  mail_text : string;
  mail_html : string;
}.

(** The six parameters of the [INSERT INTO messages] statement. *)
Record InsertParams : Type := {
  p_first_name : string;
  p_last_name : string;
  p_email : JSValue;
  p_subject : JSValue;
  p_message : string;
  p_ip_address : string;
}.

(** A stored row: the store assigns [id] and [created_at]. *)
Record Row : Type := {
  id : Z;
  columns : InsertParams;
  created_at : Z;
}.

Inductive Body : Type :=
  | Success
  | Error (error : string)
  | Listing (page limit total totalPages : Z) (rows : list Row).

Record Response : Type := {
  status : Z;
  json : Body;
}.

(** What becomes of a request: [res.status(..).json(..)] was called, or the
    handler threw outside of every [try] and nothing was sent by it. *)
Inductive Outcome : Type :=
  | Responded (r : Response)
  | Unhandled (message : string).

(** A line printed by [logEvent]: the members of the stringified object. *)
Definition LogLine : Type := list (string * JSValue).

(** The rate limiter's entry for one address. *)
Record Hit : Type := {
  totalHits : nat;
  resetTime : Z;
}.

Record World : Type := {
  console : list LogLine;
  provider_calls : list Email;
  messages : list Row;
  hits : gmap string Hit;
}.

Definition with_console (f : list LogLine → list LogLine) (w : World) : World :=
  {| console := f (console w); provider_calls := provider_calls w;
     messages := messages w; hits := hits w |}.

Definition with_provider_calls (f : list Email → list Email) (w : World) : World :=
  {| console := console w; provider_calls := f (provider_calls w);
     messages := messages w; hits := hits w |}.

Definition with_messages (f : list Row → list Row) (w : World) : World :=
  {| console := console w; provider_calls := provider_calls w;
     messages := f (messages w); hits := hits w |}.

Definition with_hits (f : gmap string Hit → gmap string Hit) (w : World) : World :=
  {| console := console w; provider_calls := provider_calls w;
     messages := messages w; hits := f (hits w) |}.

(** The result of [await resend.emails.send(..)]: the promise rejects, or it
    resolves to [{ data, error }] with [error] null or carrying a message. *)
Inductive SendResult : Type :=
  | SendRejects (message : string)
  | SendResolves (error : option string).

Inductive Query : Type :=
  | QInsert (params : InsertParams)
  | QSelect (limit offset : Z)
  | QCount.

(** [process.env]. *)
Record Env : Type := {
  EMAIL_USER : option string;
  ADMIN_API_KEY : option string;
}.

(** ** Small pieces of JavaScript *)

Definition nl : string := String (ascii_of_nat 10) EmptyString.

(** [a || b] on strings. *)
Definition or_string (a b : string) : string :=
  if String.eqb a "" then b else a.

(** ToString, for the template literals. *)
Definition ToString (v : JSValue) : string :=
  match v with
  | JUndefined => "undefined"
  | JNull => "null"
  | JBool true => "true"
  | JBool false => "false"
  | JNumber n => pretty n
  | JString s => s
  end.

(** [v.length > n]: only a string has a [length] here; [undefined > n] is
    false. *)
Definition length_gt (v : JSValue) (n : nat) : bool :=
  match v with
  | JString s => bool_decide (n < String.length s)%nat
  | _ => false
  end.

(** Object literal with spread, [{ k: v, ...data }]: a repeated key keeps its
    place and takes the later value. *)
Fixpoint object_set (k : string) (v : JSValue) (o : LogLine) : LogLine :=
  match o with
  | [] => [(k, v)]
  | (k', v') :: o' =>
      if String.eqb k' k then (k', v) :: o' else (k', v') :: object_set k v o'
  end.

Definition object_spread (o data : LogLine) : LogLine :=
  fold_left (fun acc kv => object_set kv.1 kv.2 acc) data o.

(** [JSON.stringify] leaves out the members whose value is [undefined]. *)
Definition stringified (o : LogLine) : LogLine :=
  filter (fun kv => kv.2 ≠ JUndefined) o.

Section Server.

(** The services the handlers call and do not implement. *)
Variable isEmail : string → bool.            (* validator.isEmail on a string *)
Variable resend_send : Email → SendResult.   (* resend.emails.send *)
Variable pool_fault : Query → option string. (* pool.query rejecting, with its message *)
Variable toISOString : Z → string.           (* new Date().toISOString() *)
Variable env : Env.                          (* process.env *)

Definition validator_isEmail (str : JSValue) : Completion bool :=
  s ← assertString str; Normal (isEmail s).

(** ** utils/logger.js *)

Definition logEvent (type : string) (data : LogLine) (t : Z) : LogLine :=
  stringified
    (object_spread
       [("timestamp", JString (toISOString t)); ("type", JString type)] data).

Definition log (type : string) (data : LogLine) (t : Z) (w : World) : World :=
  with_console (fun c => c ++ [logEvent type data t]) w.

(** ** The contact pipeline, [app.post("/api/contact")] *)

Definition respond (code : Z) (b : Body) : Response :=
  {| status := code; json := b |}.

(** Lines 65 to 88: the checks that answer 400.  [None] lets the request
    through to sanitization. *)
Definition validate (p : Payload) : Completion (option Response) :=
  if negb (truthy (firstName p)) || negb (truthy (lastName p))
     || negb (truthy (email p)) || negb (truthy (message p))
  then Normal (Some (respond 400 (Error "Missing required fields.")))
  else
    bad ← (if negb (truthy (email p)) then Normal true
           else negb <$> validator_isEmail (email p));
    if (bad : bool)
    then Normal (Some (respond 400 (Error "Please provide a valid email address")))
    else
      fits ← validator_isLength (email p) 254;
      if negb (fits : bool)
      then Normal (Some (respond 400 (Error "Email address is too long")))
      else
        if negb (truthy (message p)) || length_gt (message p) 1000
        then Normal (Some (respond 400 (Error "Message must be less than 1000 characters")))
        else Normal None.

(** Lines 91 to 94, in the order of the source. *)
Record Sanitized : Type := {
  sanitizedMessage : string;
  sanitizedFirstName : string;
  sanitizedLastName : string;
  sanitizedSubject : string;
}.

Definition sanitize (p : Payload) : Completion Sanitized :=
  m ← validator_escape (message p);
  f ← validator_escape (firstName p);
  l ← validator_escape (lastName p);
  s ← validator_escape (subject p);
  Normal {| sanitizedMessage := m; sanitizedFirstName := f;
            sanitizedLastName := l; sanitizedSubject := s |}.

(** Lines 97 to 111: the message handed to the provider. *)
Definition contact_email (p : Payload) (s : Sanitized) : Email :=
  {| mail_from := "Portfolio Contact <onboarding@resend.dev>";
     mail_to := [EMAIL_USER env];
     mail_reply_to := email p;
     mail_subject := or_string (sanitizedSubject s) "New Portfolio Contact";
     mail_text :=
       "Name: " +:+ sanitizedFirstName s +:+ " " +:+ sanitizedLastName s +:+ nl
       +:+ "Email: " +:+ ToString (email p) +:+ nl
       +:+ "Subject: " +:+ sanitizedSubject s +:+ nl
       +:+ "Message: " +:+ sanitizedMessage s;
     mail_html :=
       nl +:+ "        <h3>New Contact Form Submission</h3>" +:+ nl
       +:+ "        <p><strong>Name:</strong> " +:+ sanitizedFirstName s +:+ " "
       +:+ sanitizedLastName s +:+ "</p>" +:+ nl
       +:+ "        <p><strong>Email:</strong> " +:+ ToString (email p) +:+ "</p>" +:+ nl
       +:+ "        <p><strong>Subject:</strong> "
       +:+ or_string (sanitizedSubject s) "None" +:+ "</p>" +:+ nl
       +:+ "        <p><strong>Message:</strong></p>" +:+ nl
       +:+ "        <p>" +:+ sanitizedMessage s +:+ "</p>" +:+ nl
       +:+ "      " |}.

(** Lines 129 to 136: [sanitizedSubject || null]. *)
Definition insert_params (req : ContactRequest) (s : Sanitized) : InsertParams :=
  {| p_first_name := sanitizedFirstName s;
     p_last_name := sanitizedLastName s;
     p_email := email (body req);
     p_subject := if String.eqb (sanitizedSubject s) "" then JNull
                  else JString (sanitizedSubject s);
     p_message := sanitizedMessage s;
     p_ip_address := ip req |}.

(** The store numbers the rows ([SERIAL]) and stamps them
    ([DEFAULT CURRENT_TIMESTAMP]). *)
Definition next_id (rows : list Row) : Z :=
  1 + foldr (fun r m => Z.max (id r) m) 0 rows.

Definition insert_row (params : InsertParams) (t : Z) (w : World) : World :=
  with_messages
    (fun rows => rows ++ [{| id := next_id rows; columns := params; created_at := t |}]) w.

(** Lines 96 to 145, the body of the [try]: a thrown error leaves with the
    world as it was when thrown. *)
Definition try_deliver (req : ContactRequest) (s : Sanitized) (w : World)
  : Completion Response * World :=
  let mail := contact_email (body req) s in
  let w1 := with_provider_calls (fun calls => calls ++ [mail]) w in
  match resend_send mail with
  | SendRejects m => (Throw m, w1)
  | SendResolves (Some m) =>
      (Throw m,
       log "RESEND_ERROR"
         [("ip", JString (ip req)); ("email", email (body req)); ("error", JString m)]
         (now req) w1)
  | SendResolves None =>
      match pool_fault (QInsert (insert_params req s)) with
      | Some m => (Throw m, w1)
      | None =>
          (Normal (respond 200 Success),
           log "SUCCESS"
             [("ip", JString (ip req)); ("email", email (body req));
              ("subject", subject (body req))]
             (now req)
             (insert_row (insert_params req s) (now req) w1))
      end
  end.

(** Lines 146 to 155, the [catch].  What [console.error] writes to the
    standard error stream is not part of the world. *)
Definition catch_deliver (req : ContactRequest) (m : string) (w : World)
  : Response * World :=
  (respond 500 (Error "Failed to send message. Please try again later."),
   log "ERROR" [("ip", JString (ip req)); ("error", JString m)] (now req) w).

Definition deliver (req : ContactRequest) (s : Sanitized) (w : World)
  : Outcome * World :=
  match try_deliver req s w with
  | (Normal r, w') => (Responded r, w')
  | (Throw m, w') =>
      let '(r, w'') := catch_deliver req m w' in (Responded r, w'')
  end.

(** The handler of line 54. *)
Definition contact_handler (req : ContactRequest) (w : World) : Outcome * World :=
  let p := body req in
  if truthy (company p)
  then (Responded (respond 200 Success),
        log "SPAM_BLOCKED" [("ip", JString (ip req))] (now req) w)
  else
    match validate p with
    | Throw m => (Unhandled m, w)
    | Normal (Some r) => (Responded r, w)
    | Normal None =>
        match sanitize p with
        | Throw m => (Unhandled m, w)
        | Normal s => deliver req s w
        end
    end.

(** ** The rate limiter, [contactLimiter]

    Lines 39 to 51 configure express-rate-limit: the window, the cap and the
    handler of a refused request. *)

Definition windowMs : Z := 15 * 60 * 1000.
Definition limiter_max : nat := 5.

(** Modelled from the spec: the counter store of express-rate-limit, a
    dependency that is not part of the source tree.  The spec gives each
    source address a request count and a window expiry, created on the first
    request from the address and reset once the window has elapsed; every
    request is counted, refused or not. *)
Definition increment (key : string) (t : Z) (store : gmap string Hit)
  : Hit * gmap string Hit :=
  let fresh := {| totalHits := 1; resetTime := t + windowMs |} in
  let h :=
    match store !! key with
    | Some h =>
        if bool_decide (t < resetTime h)
        then {| totalHits := S (totalHits h); resetTime := resetTime h |}
        else fresh
    | None => fresh
    end in
  (h, <[key := h]> store).

(** Lines 42 to 50, the handler option. *)
Definition rate_limited (req : ContactRequest) (w : World) : Response * World :=
  (respond 429 (Error "Too many requests. Please try again later."),
   log "RATE_LIMITED" [("ip", JString (ip req))] (now req) w).

(** The middleware: [None] stands for [next()]. *)
Definition contactLimiter (req : ContactRequest) (w : World)
  : option Response * World :=
  let '(h, store) := increment (ip req) (now req) (hits w) in
  let w1 := with_hits (fun _ => store) w in
  if bool_decide (limiter_max < totalHits h)%nat
  then let '(r, w2) := rate_limited req w1 in (Some r, w2)
  else (None, w1).

(** [app.post("/api/contact", contactLimiter, handler)]. *)
Definition contact_route (req : ContactRequest) (w : World) : Outcome * World :=
  match contactLimiter req w with
  | (Some r, w') => (Responded r, w')
  | (None, w') => contact_handler req w'
  end.

(** The requests of a trace, served one after the other.  For each one:
    whether the limiter called [next()], the answer, and the lines the
    request printed. *)
Record Served : Type := {
  reached : bool;
  outcome : Outcome;
  printed : list LogLine;
}.

Definition serve_one (req : ContactRequest) (w : World) : Served * World :=
  let w1 := (contact_route req w).2 in
  ({| reached := bool_decide ((contactLimiter req w).1 = None);
      outcome := (contact_route req w).1;
      printed := drop (length (console w)) (console w1) |}, w1).

Fixpoint serve (reqs : list ContactRequest) (w : World) : list Served * World :=
  match reqs with
  | [] => ([], w)
  | req :: rest =>
      let '(sv, w1) := serve_one req w in
      let '(svs, w2) := serve rest w1 in
      (sv :: svs, w2)
  end.

(** The requests from address [a] among [reqs]. *)
Definition from_address (a : string) (reqs : list ContactRequest) : list ContactRequest :=
  filter (fun r => ip r = a) reqs.

(** No window is open for [a] at instant [t]. *)
Definition no_window (store : gmap string Hit) (a : string) (t : Z) : Prop :=
  match store !! a with
  | Some h => resetTime h ≤ t
  | None => True
  end.

(** ** The admin guard, [adminAuth] *)

(** [req.headers.authorization] and [req.query] of the admin route. *)
Record AdminRequest : Type := {
  authorization : option string;
  query_page : option string;
  query_limit : option string;
  admin_now : Z;
}.

(** [s.split(sep)] for a one-character separator. *)
Fixpoint split (sep : ascii) (s : string) : list string :=
  match s with
  | EmptyString => [EmptyString]
  | String c r =>
      if Ascii.eqb c sep then EmptyString :: split sep r
      else match split sep r with
           | [] => [String c EmptyString]
           | h :: t => String c h :: t
           end
  end.

Definition startsWith (s p : string) : bool := String.prefix p s.

Inductive Guard : Type :=
  | Refused (r : Response)
  | Next.

(** Lines 19 to 33.  [token] is [undefined] when the array has no second
    element; [!==] compares strings, or [undefined] with itself. *)
Definition adminAuth (req : AdminRequest) : Guard :=
  match authorization req with
  | None => Refused (respond 401 (Error "Unauthorized"))
  | Some authHeader =>
      if String.eqb authHeader "" || negb (startsWith authHeader "Bearer ")
      then Refused (respond 401 (Error "Unauthorized"))
      else
        let token := split " " authHeader !! 1%nat in
        if bool_decide (token ≠ ADMIN_API_KEY env)
        then Refused (respond 403 (Error "Forbidden"))
        else Next
  end.

(** ** The admin listing, [app.get("api/admin/messages")]

    Line 165 reads [const { rows } await pool.query(..)]; the embedding takes
    it for the destructuring assignment [const { rows } = await ..].  The
    route is registered under a path without its leading slash; the handler
    is modelled as a function of the request it would be given. *)

Definition is_space (c : ascii) : bool :=
  bool_decide (nat_of_ascii c ∈ [9; 10; 11; 12; 13; 32; 160]%nat).

Fixpoint trim_start (s : string) : string :=
  match s with
  | EmptyString => EmptyString
  | String c r => if is_space c then trim_start r else s
  end.

Definition digit (c : ascii) : option Z :=
  let n := nat_of_ascii c in
  if bool_decide (48 ≤ n ≤ 57)%nat then Some (Z.of_nat n - 48) else None.

(** The value of the longest prefix of decimal digits, if there is one. *)
Fixpoint digits (s : string) (acc : option Z) : option Z :=
  match s with
  | EmptyString => acc
  | String c r =>
      match digit c with
      | Some d => digits r (Some (10 * default 0 acc + d))
      | None => acc
      end
  end.

(** [parseInt(v, 10)] of a query parameter; [None] is [NaN].  An absent
    parameter is [undefined], which has no digit. *)
Definition parseInt (v : option string) : option Z :=
  match v with
  | None => None
  | Some s =>
      match trim_start s with
      | String "-" r => Z.opp <$> digits r None
      | String "+" r => digits r None
      | r => digits r None
      end
  end.

(** [n || d] on numbers: [NaN] and [0] are falsy. *)
Definition or_number (n : option Z) (d : Z) : Z :=
  match n with
  | Some z => if z =? 0 then d else z
  | None => d
  end.

(** [Math.ceil(a / b)] for [b] other than 0. *)
Definition ceil_div (a b : Z) : Z := - ((- a) / b).

(** [ORDER BY created_at DESC]; SQL leaves the order of rows with the same
    stamp open, the model lists the later insertion first. *)
Fixpoint insert_desc (r : Row) (rows : list Row) : list Row :=
  match rows with
  | [] => [r]
  | r' :: rest =>
      if bool_decide (created_at r' < created_at r) then r :: rows
      else r' :: insert_desc r rest
  end.

Definition order_desc (rows : list Row) : list Row := foldr insert_desc [] rows.

(** The two statements of lines 165 to 185.  PostgreSQL refuses a negative
    [LIMIT] or [OFFSET]. *)
Definition select_messages (limit offset : Z) (w : World) : Completion (list Row) :=
  match pool_fault (QSelect limit offset) with
  | Some m => Throw m
  | None =>
      if limit <? 0 then Throw "LIMIT must not be negative"
      else if offset <? 0 then Throw "OFFSET must not be negative"
      else Normal (take (Z.to_nat limit)
                     (drop (Z.to_nat offset) (order_desc (messages w))))
  end.

Definition count_messages (w : World) : Completion Z :=
  match pool_fault QCount with
  | Some m => Throw m
  | None => Normal (Z.of_nat (length (messages w)))
  end.

(** Lines 158 to 205. *)
Definition admin_messages (req : AdminRequest) (w : World) : Response * World :=
  let page := or_number (parseInt (query_page req)) 1 in
  let limit := or_number (parseInt (query_limit req)) 20 in
  let offset := (page - 1) * limit in
  let attempt :=
    rows ← select_messages limit offset w;
    total ← count_messages w;
    let totalPages := ceil_div total limit in
    Normal (respond 200 (Listing page limit total totalPages rows)) in
  match attempt with
  | Normal r => (r, w)
  | Throw m =>
      (respond 500 (Error "Failed to fetch messages"),
       log "ERROR" [("type", JString "ADMIN_FETCH_FAILED"); ("error", JString m)]
         (admin_now req) w)
  end.


(** ** The earlier variant of the pipeline

    An older copy of the server (nodemailer instead of Resend) runs the same
    checks and the same four escapes, but hands the submitted values
    themselves to the [INSERT] statement (its lines 101 to 108). *)

Definition or_value (a b : JSValue) : JSValue := if truthy a then a else b.

Definition legacy_insert_values (req : ContactRequest) : list JSValue :=
  [firstName (body req); lastName (body req); email (body req);
   or_value (subject (body req)) JNull; message (body req); JString (ip req)].

(** ** Spec-side vocabulary *)

(** A field is missing when it is absent or the empty string. *)
Definition missing (v : JSValue) : Prop := v = JUndefined ∨ v = JString "".

(** The characters the escape is there to neutralize. *)
Definition markup (c : ascii) : bool :=
  bool_decide (nat_of_ascii c ∈ [34; 39; 47; 60; 62; 92; 96]%nat).

Definition markup_free (s : string) : Prop :=
  ∀ c, c ∈ String.list_ascii_of_string s → markup c = false.

(** The text of [s] before its first space. *)
Fixpoint first_field (s : string) : string :=
  match s with
  | EmptyString => EmptyString
  | String c r => if Ascii.eqb c " " then EmptyString else String c (first_field r)
  end.

(** Empty after trimming: nothing but white space. *)
Definition blank (s : string) : Prop := trim_start s = "".

(** * Facts *)

(** ** Truthiness *)

Lemma truthy_string (s : string) : s ≠ "" → truthy (JString s) = true.
Proof. intros Hs. destruct s; [congruence | reflexivity]. Qed.

Lemma truthy_string_inv (v : JSValue) (s : string) :
  v = JString s → truthy v = true → s ≠ "".
Proof. intros -> Ht ->. discriminate Ht. Qed.

Lemma missing_falsy (v : JSValue) : missing v → truthy v = false.
Proof. intros [-> | ->]; reflexivity. Qed.

Lemma or_string_nonempty (a b : string) : a ≠ "" → or_string a b = a.
Proof. intros Ha. destruct a; [congruence | reflexivity]. Qed.

(** ** Strings *)

Lemma append_cons (x : ascii) (a b : string) :
  String x a +:+ b = String x (a +:+ b).
Proof. reflexivity. Qed.

Lemma append_assoc (a b c : string) : (a +:+ b) +:+ c = a +:+ (b +:+ c).
Proof.
  induction a as [| x a IH]; [reflexivity |].
  now rewrite !append_cons, IH.
Qed.

Lemma append_length (a b : string) :
  String.length (a +:+ b) = (String.length a + String.length b)%nat.
Proof.
  induction a as [| x a IH]; [reflexivity |].
  rewrite append_cons. simpl. now rewrite IH.
Qed.

Lemma append_chars (a b : string) :
  String.list_ascii_of_string (a +:+ b)
  = String.list_ascii_of_string a ++ String.list_ascii_of_string b.
Proof.
  induction a as [| x a IH]; [reflexivity |].
  rewrite append_cons. simpl. now rewrite IH.
Qed.

Lemma length_zero (s : string) : String.length s = 0%nat → s = "".
Proof. destruct s; [reflexivity | discriminate]. Qed.

(** ** The escape works character by character *)

Lemma replace_all_app (c : ascii) (ent a b : string) :
  replace_all c ent (a +:+ b) = replace_all c ent a +:+ replace_all c ent b.
Proof.
  induction a as [| x a IH]; [reflexivity |].
  rewrite append_cons. simpl. destruct (Ascii.eqb x c); rewrite IH.
  - symmetry. apply append_assoc.
  - reflexivity.
Qed.

Lemma escape_string_app (a b : string) :
  escape_string (a +:+ b) = escape_string a +:+ escape_string b.
Proof. unfold escape_string. now rewrite !replace_all_app. Qed.

Definition escape_char (c : ascii) : string := escape_string (String c EmptyString).

Lemma escape_string_cons (c : ascii) (s : string) :
  escape_string (String c s) = escape_char c +:+ escape_string s.
Proof. exact (escape_string_app (String c EmptyString) s). Qed.

(** Each character becomes one to six characters, none of them markup. *)
Lemma escape_char_spec (c : ascii) :
  (1 ≤ String.length (escape_char c) ≤ 6)%nat ∧
  forallb (fun x => negb (markup x))
    (String.list_ascii_of_string (escape_char c)) = true.
Proof.
  destruct c as [[] [] [] [] [] [] [] []]; vm_compute; (split; [lia | reflexivity]).
Qed.

Lemma escape_string_markup_free (s : string) : markup_free (escape_string s).
Proof.
  induction s as [| c s IH]; intros x Hx.
  - inversion Hx.
  - rewrite escape_string_cons, append_chars in Hx.
    apply elem_of_app in Hx as [Hx | Hx]; [| now apply IH].
    destruct (escape_char_spec c) as [_ Hall].
    rewrite forallb_forall in Hall.
    apply list_elem_of_In, Hall in Hx.
    now apply negb_true_iff in Hx.
Qed.

Lemma escape_string_length (s : string) :
  (String.length s ≤ String.length (escape_string s) ≤ 6 * String.length s)%nat.
Proof.
  induction s as [| c s IH]; [simpl; lia |].
  rewrite escape_string_cons, append_length.
  destruct (escape_char_spec c) as [Hlen _]. simpl String.length. lia.
Qed.

Lemma escape_string_empty (s : string) : escape_string s = "" ↔ s = "".
Proof.
  split; [| now intros ->].
  intros He. apply length_zero.
  pose proof (escape_string_length s) as Hlen. rewrite He in Hlen.
  simpl in Hlen. lia.
Qed.

(** ** The stages of the pipeline *)

Lemma assertString_inv (v : JSValue) (s : string) :
  assertString v = Normal s → v = JString s.
Proof. destruct v; simpl; congruence. Qed.

Lemma validator_escape_inv (v : JSValue) (e : string) :
  validator_escape v = Normal e → ∃ s, v = JString s ∧ e = escape_string s.
Proof.
  destruct v; try discriminate. intros [= <-]. eauto.
Qed.

(** A payload passes validation exactly when the four required fields are
    truthy, the address is a string that [isEmail] accepts and that fits in
    254 characters, and the message is not longer than 1000. *)
Lemma validate_passes (p : Payload) :
  validate p = Normal None ↔
  truthy (firstName p) = true ∧ truthy (lastName p) = true ∧
  truthy (message p) = true ∧ length_gt (message p) 1000 = false ∧
  ∃ em, email p = JString em ∧ em ≠ "" ∧ isEmail em = true ∧
        (String.length em ≤ 254)%nat.
Proof.
  unfold validate.
  destruct (truthy (firstName p)), (truthy (lastName p)),
    (truthy (email p)) eqn:Hem, (truthy (message p)); simpl;
    try (split; [discriminate |
                 intros (? & ? & ? & ? & em & Hp & Hne & _); try discriminate;
                 rewrite Hp in Hem; rewrite (truthy_string _ Hne) in Hem;
                 discriminate]).
  destruct (email p) as [| | b | n | em] eqn:Hp; try discriminate Hem;
    try (split; [discriminate | intros (_ & _ & _ & _ & em & [=] & _)]).
  cbn. destruct (isEmail em) eqn:Hv; cbn.
  2:{ split; [discriminate | intros (_ & _ & _ & _ & em' & [= <-] & _ & Hv' & _)].
      congruence. }
  case_bool_decide as Hlen; cbn.
  2:{ split; [discriminate | intros (_ & _ & _ & _ & em' & [= <-] & _ & _ & Hl)].
      contradiction. }
  destruct (length_gt (message p) 1000) eqn:Hm.
  - split; [discriminate | intros (_ & _ & _ & [=] & _)].
  - split; [| reflexivity]. intros _. repeat split.
    exists em. repeat split; try assumption.
    intros ->. discriminate Hem.
Qed.

Lemma sanitize_inv (p : Payload) (s : Sanitized) :
  sanitize p = Normal s →
  ∃ m f l sj,
    message p = JString m ∧ firstName p = JString f ∧
    lastName p = JString l ∧ subject p = JString sj ∧
    s = {| sanitizedMessage := escape_string m;
           sanitizedFirstName := escape_string f;
           sanitizedLastName := escape_string l;
           sanitizedSubject := escape_string sj |}.
Proof.
  unfold sanitize.
  destruct (message p) as [| | | | m]; try discriminate.
  destruct (firstName p) as [| | | | f]; try discriminate.
  destruct (lastName p) as [| | | | l]; try discriminate.
  destruct (subject p) as [| | | | sj]; try discriminate.
  intros [= <-]. exists m, f, l, sj. repeat split.
Qed.

Lemma sanitize_strings (p : Payload) (m f l sj : string) :
  message p = JString m → firstName p = JString f →
  lastName p = JString l → subject p = JString sj →
  sanitize p =
    Normal {| sanitizedMessage := escape_string m;
              sanitizedFirstName := escape_string f;
              sanitizedLastName := escape_string l;
              sanitizedSubject := escape_string sj |}.
Proof. unfold sanitize. now intros -> -> -> ->. Qed.

Lemma sanitize_absent_subject (p : Payload) :
  subject p = JUndefined → ∃ m, sanitize p = Throw m.
Proof.
  intros Hs. unfold sanitize. rewrite Hs.
  destruct (message p), (firstName p), (lastName p); cbn; eauto.
Qed.

(** The lines the pipeline prints. *)
Definition line (t : Z) (type : string) (data : LogLine) : LogLine :=
  ("timestamp", JString (toISOString t)) :: ("type", JString type) :: data.

Lemma log_console (type : string) (data : LogLine) (t : Z) (w : World) :
  console (log type data t w) = console w ++ [logEvent type data t].
Proof. reflexivity. Qed.

Lemma log_provider_calls (type : string) (data : LogLine) (t : Z) (w : World) :
  provider_calls (log type data t w) = provider_calls w.
Proof. reflexivity. Qed.

Lemma log_messages (type : string) (data : LogLine) (t : Z) (w : World) :
  messages (log type data t w) = messages w.
Proof. reflexivity. Qed.

(** ** The contact pipeline *)

(** C1.  A payload whose honeypot field [company] is a non-empty string is
    answered 200 with [{success: true}], the very response of the success
    path; one SPAM_BLOCKED line carrying the source address is printed, the
    provider is not called and no row is inserted, whatever the other fields
    hold. *)
Theorem honeypot_fake_success (req : ContactRequest) (w : World) (c : string) :
  company (body req) = JString c → c ≠ "" →
  contact_handler req w =
    (Responded (respond 200 Success),
     with_console
       (fun out => out ++ [line (now req) "SPAM_BLOCKED" [("ip", JString (ip req))]]) w)
  ∧ provider_calls (contact_handler req w).2 = provider_calls w
  ∧ messages (contact_handler req w).2 = messages w
  ∧ ∀ req' s' w' r w'',
      try_deliver req' s' w' = (Normal r, w'') → r = respond 200 Success.
Proof.
  intros Hc Hne. unfold contact_handler.
  rewrite Hc, (truthy_string _ Hne). repeat split.
  intros req' s' w' r w''. unfold try_deliver.
  destruct (resend_send _) as [| [|]]; try discriminate.
  destruct (pool_fault _); [discriminate |]. now intros [= <- _].
Qed.

(** C6, as amended.  When the honeypot field is empty or absent, a payload
    that misses one of firstName, lastName, email, message (absent or empty)
    is answered 400 "Missing required fields." and nothing else happens; the
    answer is the same for every [isEmail], so no format check decides it. *)
Theorem missing_fields_rejected (req : ContactRequest) (w : World) :
  truthy (company (body req)) = false →
  missing (firstName (body req)) ∨ missing (lastName (body req))
  ∨ missing (email (body req)) ∨ missing (message (body req)) →
  contact_handler req w =
    (Responded (respond 400 (Error "Missing required fields.")), w).
Proof.
  intros Hc Hmiss. unfold contact_handler, validate. rewrite Hc.
  destruct Hmiss as [H | [H | [H | H]]]; apply missing_falsy in H; rewrite H;
    simpl; rewrite ?orb_true_r; reflexivity.
Qed.

(** C7.  On a payload that is valid otherwise (honeypot empty, names
    non-empty strings, an address that passes both checks), a message of
    exactly 1000 characters passes validation, and the submission succeeds
    once the provider and the store accept it; a message of 1001 characters
    or more is answered 400 "Message must be less than 1000 characters". *)
Theorem message_length_boundary
    (req : ContactRequest) (w : World) (f l em m : string) :
  truthy (company (body req)) = false →
  firstName (body req) = JString f → f ≠ "" →
  lastName (body req) = JString l → l ≠ "" →
  email (body req) = JString em → em ≠ "" →
  isEmail em = true → (String.length em ≤ 254)%nat →
  message (body req) = JString m →
  (String.length m = 1000%nat →
     validate (body req) = Normal None
     ∧ ∀ sj s,
         subject (body req) = JString sj →
         sanitize (body req) = Normal s →
         resend_send (contact_email (body req) s) = SendResolves None →
         pool_fault (QInsert (insert_params req s)) = None →
         (contact_handler req w).1 = Responded (respond 200 Success))
  ∧ ((1001 ≤ String.length m)%nat →
     contact_handler req w =
       (Responded
          (respond 400 (Error "Message must be less than 1000 characters")), w)).
Proof.
  intros Hc Hf Hfne Hl Hlne Hem Hemne Hv Hlen Hm.
  assert (Hmne : String.length m ≠ 0%nat → truthy (message (body req)) = true).
  { intros H. rewrite Hm. apply truthy_string. now intros ->. }
  split.
  - intros H1000.
    assert (Hpass : validate (body req) = Normal None).
    { apply validate_passes. rewrite Hf, Hl.
      rewrite !truthy_string by assumption. rewrite Hmne by lia.
      repeat split; [| eauto 6].
      rewrite Hm. simpl. case_bool_decide; [lia | reflexivity]. }
    split; [exact Hpass |].
    intros sj s Hsj Hs Hsend Hins.
    unfold contact_handler. rewrite Hc, Hpass, Hs.
    unfold deliver, try_deliver. now rewrite Hsend, Hins.
  - intros H1001. unfold contact_handler, validate.
    rewrite Hc, Hmne by lia. rewrite Hf, Hl, Hem.
    rewrite !truthy_string by assumption. cbn. rewrite Hv. cbn.
    rewrite bool_decide_true by assumption. cbn.
    rewrite Hm. simpl. rewrite bool_decide_true by lia. reflexivity.
Qed.

(** C8, the code at the failing input.  A payload that passes validation
    and has no subject is not answered: [validator.escape(subject)] throws
    before the [try], so no email is sent and no row is stored. *)
Theorem absent_subject_unanswered (req : ContactRequest) (w : World) :
  truthy (company (body req)) = false →
  validate (body req) = Normal None →
  subject (body req) = JUndefined →
  ∃ m, contact_handler req w = (Unhandled m, w).
Proof.
  intros Hc Hv Hs. destruct (sanitize_absent_subject _ Hs) as [m Hm].
  exists m. unfold contact_handler. now rewrite Hc, Hv, Hm.
Qed.

(** The default the source reaches for applies to the empty subject. *)
Lemma empty_subject_defaults (p : Payload) (s : Sanitized) :
  subject p = JString "" → sanitize p = Normal s →
  mail_subject (contact_email p s) = "New Portfolio Contact"
  ∧ mail_reply_to (contact_email p s) = email p
  ∧ mail_to (contact_email p s) = [EMAIL_USER env].
Proof.
  intros Hs Hsan. apply sanitize_inv in Hsan as (m & f & l & sj & _ & _ & _ & Hsj & ->).
  rewrite Hs in Hsj. injection Hsj as <-. repeat split.
Qed.

(** The only way to a 200 past the honeypot is the end of the [try]. *)
Lemma accepted_inv (req : ContactRequest) (w w' : World) :
  truthy (company (body req)) = false →
  contact_handler req w = (Responded (respond 200 Success), w') →
  ∃ s, validate (body req) = Normal None
       ∧ sanitize (body req) = Normal s
       ∧ resend_send (contact_email (body req) s) = SendResolves None
       ∧ pool_fault (QInsert (insert_params req s)) = None
       ∧ w' = log "SUCCESS"
                [("ip", JString (ip req)); ("email", email (body req));
                 ("subject", subject (body req))]
                (now req)
                (insert_row (insert_params req s) (now req)
                   (with_provider_calls
                      (fun calls => calls ++ [contact_email (body req) s]) w)).
Proof.
  intros Hc. unfold contact_handler. rewrite Hc.
  destruct (validate (body req)) as [[r |] |] eqn:Hv.
  - unfold validate in Hv. intros [= -> <-]. exfalso.
    repeat match type of Hv with
    | (if ?b then _ else _) = _ => destruct b; [discriminate Hv |]
    | (?c ≫= _) = _ => destruct c as [[] |]; cbn in Hv
    | _ => discriminate Hv
    end.
  - destruct (sanitize (body req)) as [s |] eqn:Hs; [| discriminate].
    unfold deliver, try_deliver.
    destruct (resend_send _) as [m | [m |]] eqn:Hsend; try discriminate.
    destruct (pool_fault _) as [m |] eqn:Hins; [discriminate |].
    intros [= <-]. exists s. repeat split; assumption.
  - discriminate.
Qed.

(** C2.  When a submission is accepted (200 past the honeypot), the four
    text fields are strings, and what is handed to the provider and inserted
    into the store are their escaped forms: the text and HTML bodies and the
    subject line are built from them, the row holds them, and none of them
    contains a markup character.  The address is passed on as submitted. *)
Theorem accepted_submission_is_escaped (req : ContactRequest) (w w' : World) :
  truthy (company (body req)) = false →
  contact_handler req w = (Responded (respond 200 Success), w') →
  ∃ (f l sj m : string) (mail : Email) (row : Row),
    firstName (body req) = JString f ∧ lastName (body req) = JString l
    ∧ subject (body req) = JString sj ∧ message (body req) = JString m
    ∧ provider_calls w' = provider_calls w ++ [mail]
    ∧ messages w' = messages w ++ [row]
    ∧ mail_text mail =
        "Name: " +:+ escape_string f +:+ " " +:+ escape_string l +:+ nl
        +:+ "Email: " +:+ ToString (email (body req)) +:+ nl
        +:+ "Subject: " +:+ escape_string sj +:+ nl
        +:+ "Message: " +:+ escape_string m
    ∧ mail_html mail =
        nl +:+ "        <h3>New Contact Form Submission</h3>" +:+ nl
        +:+ "        <p><strong>Name:</strong> " +:+ escape_string f +:+ " "
        +:+ escape_string l +:+ "</p>" +:+ nl
        +:+ "        <p><strong>Email:</strong> "
        +:+ ToString (email (body req)) +:+ "</p>" +:+ nl
        +:+ "        <p><strong>Subject:</strong> "
        +:+ or_string (escape_string sj) "None" +:+ "</p>" +:+ nl
        +:+ "        <p><strong>Message:</strong></p>" +:+ nl
        +:+ "        <p>" +:+ escape_string m +:+ "</p>" +:+ nl
        +:+ "      "
    ∧ mail_subject mail = or_string (escape_string sj) "New Portfolio Contact"
    ∧ mail_reply_to mail = email (body req)
    ∧ p_first_name (columns row) = escape_string f
    ∧ p_last_name (columns row) = escape_string l
    ∧ p_subject (columns row) =
        (if String.eqb (escape_string sj) "" then JNull
         else JString (escape_string sj))
    ∧ p_message (columns row) = escape_string m
    ∧ p_email (columns row) = email (body req)
    ∧ Forall markup_free
        [escape_string f; escape_string l; escape_string sj; escape_string m].
Proof.
  intros Hc Hok.
  destruct (accepted_inv _ _ _ Hc Hok) as (s & _ & Hs & _ & _ & ->).
  apply sanitize_inv in Hs as (m & f & l & sj & Hm & Hf & Hl & Hsj & ->).
  exists f, l, sj, m. eexists. eexists.
  repeat (split; [first [eassumption | reflexivity] |]).
  repeat constructor; apply escape_string_markup_free.
Qed.

(** C3.  When the provider call fails on a submission that reached it, by
    rejecting or by resolving with an error (which prints a RESEND_ERROR line
    with the source address, the submitter's address and the provider's
    message), no row is inserted, an ERROR line with the source address and
    the message is printed, and the answer is 500 with the fixed text
    "Failed to send message. Please try again later.", in which the message
    of the error has no part. *)
Theorem dispatch_failure_answers_500
    (req : ContactRequest) (w : World) (s : Sanitized) (m : string) :
  truthy (company (body req)) = false →
  validate (body req) = Normal None →
  sanitize (body req) = Normal s →
  resend_send (contact_email (body req) s) = SendRejects m
  ∨ resend_send (contact_email (body req) s) = SendResolves (Some m) →
  ∃ w' em,
    contact_handler req w =
      (Responded
         (respond 500 (Error "Failed to send message. Please try again later.")),
       w')
    ∧ messages w' = messages w
    ∧ email (body req) = JString em
    ∧ (resend_send (contact_email (body req) s) = SendRejects m →
       console w' =
         console w
         ++ [line (now req) "ERROR" [("ip", JString (ip req)); ("error", JString m)]])
    ∧ (resend_send (contact_email (body req) s) = SendResolves (Some m) →
       console w' =
         console w
         ++ [line (now req) "RESEND_ERROR"
               [("ip", JString (ip req)); ("email", JString em);
                ("error", JString m)];
             line (now req) "ERROR" [("ip", JString (ip req)); ("error", JString m)]]).
Proof.
  intros Hc Hv Hs Hfail.
  pose proof Hv as Hv'. apply validate_passes in Hv' as (_ & _ & _ & _ & em & Hem & _).
  unfold contact_handler. rewrite Hc, Hv, Hs. unfold deliver, try_deliver.
  destruct Hfail as [Hr | Hr]; rewrite Hr; eexists; exists em;
    (split; [reflexivity |]); (split; [reflexivity |]); (split; [exact Hem |]);
    (split; [intros [=] | intros [=]]); subst; cbn.
  - reflexivity.
  - rewrite Hem. cbn. now rewrite <- app_assoc.
Qed.

(** ** The rate limiter *)

Definition too_many : Response :=
  respond 429 (Error "Too many requests. Please try again later.").

(** The pipeline never touches the counters. *)
Lemma contact_handler_hits (req : ContactRequest) (w : World) :
  hits (contact_handler req w).2 = hits w.
Proof.
  unfold contact_handler.
  destruct (truthy _); [reflexivity |].
  destruct (validate _) as [[r |] |]; try reflexivity.
  destruct (sanitize _) as [s |]; [| reflexivity].
  unfold deliver, try_deliver.
  destruct (resend_send _) as [m | [m |]]; try reflexivity.
  destruct (pool_fault _); reflexivity.
Qed.

(** A request inside the window opened for its address. *)
Lemma contactLimiter_open (req : ContactRequest) (w : World) (k : nat) (T : Z) :
  hits w !! ip req = Some {| totalHits := k; resetTime := T |} →
  now req < T →
  let w1 :=
    with_hits
      (fun _ => <[ip req := {| totalHits := S k; resetTime := T |}]> (hits w)) w in
  contactLimiter req w =
    if bool_decide (k < limiter_max)%nat then (None, w1)
    else (Some too_many,
          log "RATE_LIMITED" [("ip", JString (ip req))] (now req) w1).
Proof.
  intros Hh Ht. unfold contactLimiter, increment. rewrite Hh. simpl.
  rewrite (bool_decide_true (now req < T)) by assumption. simpl.
  unfold limiter_max. do 2 case_bool_decide; try lia; reflexivity.
Qed.

(** A request that finds no open window opens one and goes through. *)
Lemma contactLimiter_fresh (req : ContactRequest) (w : World) :
  no_window (hits w) (ip req) (now req) →
  contactLimiter req w =
    (None,
     with_hits
       (fun _ => <[ip req := {| totalHits := 1; resetTime := now req + windowMs |}]>
                   (hits w)) w).
Proof.
  unfold no_window, contactLimiter, increment.
  destruct (hits w !! ip req) as [h |]; [| reflexivity].
  intros Hh. now rewrite (bool_decide_false (now req < resetTime h)) by lia.
Qed.

Lemma contact_route_hits (req : ContactRequest) (w : World) :
  hits (contact_route req w).2 = hits (contactLimiter req w).2.
Proof.
  unfold contact_route. destruct (contactLimiter req w) as [[r |] w1]; [reflexivity |].
  apply contact_handler_hits.
Qed.

Lemma contactLimiter_other (req : ContactRequest) (w : World) (a : string) :
  ip req ≠ a → hits (contactLimiter req w).2 !! a = hits w !! a.
Proof.
  intros Hne. unfold contactLimiter, increment.
  case_bool_decide; simpl; now rewrite lookup_insert_ne.
Qed.

Lemma serve_cons (req : ContactRequest) (rest : list ContactRequest) (w : World) :
  serve (req :: rest) w =
    ((serve_one req w).1 :: (serve rest (serve_one req w).2).1,
     (serve rest (serve_one req w).2).2).
Proof.
  cbn [serve]. destruct (serve_one req w) as [sv w1]. cbn [fst snd].
  destruct (serve rest w1). reflexivity.
Qed.

(** While the window of [a] stays open, the requests from [a] are let
    through until the counter reaches the cap, and refused from then on. *)
Lemma serve_window (reqs : list ContactRequest) (a : string) (T : Z) :
  ∀ (w : World) (k : nat),
  hits w !! a = Some {| totalHits := k; resetTime := T |} →
  (∀ r, r ∈ reqs → ip r = a → now r < T) →
  (∀ i sv r,
     (serve reqs w).1 !! i = Some sv → reqs !! i = Some r → ip r = a →
     let n := (k + length (from_address a (take i reqs)))%nat in
     reached sv = bool_decide (n < limiter_max)%nat
     ∧ ((limiter_max ≤ n)%nat →
        outcome sv = Responded too_many
        ∧ printed sv = [line (now r) "RATE_LIMITED" [("ip", JString a)]]))
  ∧ hits (serve reqs w).2 !! a =
      Some {| totalHits := k + length (from_address a reqs); resetTime := T |}.
Proof.
  induction reqs as [| req rest IH]; intros w k Hh Hin.
  - split; [intros i sv r Hi; destruct i; discriminate |].
    simpl. now rewrite Nat.add_0_r.
  - rewrite serve_cons. change (serve_one req w).2 with (contact_route req w).2.
    cbn [fst snd].
    destruct (decide (ip req = a)) as [Ha | Ha].
    + assert (Ht : now req < T) by (apply Hin; [left | exact Ha]).
      rewrite <- Ha in Hh.
      pose proof (contactLimiter_open req w k T Hh Ht) as Hlim. cbn zeta in Hlim.
      assert (Hh1 : hits (contact_route req w).2 !! a
                    = Some {| totalHits := S k; resetTime := T |}).
      { rewrite contact_route_hits, Hlim.
        case_bool_decide; simpl; rewrite <- Ha; apply lookup_insert_eq. }
      destruct (IH _ _ Hh1) as [IHi IHh].
      { intros r Hr. apply Hin. now right. }
      split.
      * intros [| i] sv r Hsv Hr Hipr; simpl in Hsv, Hr.
        -- injection Hsv as <-. injection Hr as <-.
           unfold serve_one. cbn [fst reached outcome printed].
           unfold contact_route. rewrite Hlim. simpl. rewrite Nat.add_0_r.
           case_bool_decide as Hk; simpl.
           ++ split; [reflexivity | unfold limiter_max in *; lia].
           ++ split; [reflexivity |]. intros _. split; [reflexivity |].
              rewrite drop_app_length. now rewrite Ha.
        -- specialize (IHi i sv r Hsv Hr Hipr). cbn zeta in IHi |- *.
           change (take (S i) (req :: rest)) with (req :: take i rest).
           unfold from_address in *. rewrite filter_cons_True by exact Ha.
           simpl length. now rewrite Nat.add_succ_r.
      * rewrite IHh. unfold from_address. rewrite filter_cons_True by exact Ha.
        simpl length. now rewrite Nat.add_succ_r.
    + assert (Hh1 : hits (contact_route req w).2 !! a
                    = Some {| totalHits := k; resetTime := T |}).
      { now rewrite contact_route_hits, contactLimiter_other. }
      destruct (IH _ _ Hh1) as [IHi IHh].
      { intros r Hr. apply Hin. now right. }
      split.
      * intros [| i] sv r Hsv Hr Hipr; simpl in Hsv, Hr.
        -- injection Hr as <-. contradiction.
        -- specialize (IHi i sv r Hsv Hr Hipr). cbn zeta in IHi |- *.
           change (take (S i) (req :: rest)) with (req :: take i rest).
           unfold from_address in *. now rewrite filter_cons_False by exact Ha.
      * rewrite IHh. unfold from_address. now rewrite filter_cons_False by exact Ha.
Qed.

(** C9.  Let a request [r0] open a window for its address, and let any
    requests follow, those from the same address within 15 minutes of [r0].
    A request from that address reaches the pipeline exactly when fewer than
    5 requests from the address came before it in the window; from the 6th
    on it is answered 429 "Too many requests. Please try again later." and
    prints one RATE_LIMITED line with the address, nothing else.  Once the 15
    minutes have passed, the next request from the address is let through. *)
Theorem rate_limit_window
    (r0 : ContactRequest) (rest : list ContactRequest) (w : World) :
  no_window (hits w) (ip r0) (now r0) →
  (∀ r, r ∈ rest → ip r = ip r0 → now r < now r0 + 900000) →
  (∀ i sv r,
     (serve (r0 :: rest) w).1 !! i = Some sv → (r0 :: rest) !! i = Some r →
     ip r = ip r0 →
     let earlier := length (from_address (ip r0) (take i (r0 :: rest))) in
     reached sv = bool_decide (earlier < 5)%nat
     ∧ ((5 ≤ earlier)%nat →
        outcome sv = Responded too_many
        ∧ printed sv = [line (now r) "RATE_LIMITED" [("ip", JString (ip r0))]]))
  ∧ (∀ r, ip r = ip r0 → now r0 + 900000 ≤ now r →
       (contactLimiter r (serve (r0 :: rest) w).2).1 = None
       ∧ contact_route r (serve (r0 :: rest) w).2
         = contact_handler r (contactLimiter r (serve (r0 :: rest) w).2).2).
Proof.
  intros Hfresh Hin. change 900000 with windowMs in *.
  pose proof (contactLimiter_fresh r0 w Hfresh) as Hlim.
  rewrite serve_cons. change (serve_one r0 w).2 with (contact_route r0 w).2.
  cbn [fst snd].
  assert (Hh1 : hits (contact_route r0 w).2 !! ip r0
                = Some {| totalHits := 1; resetTime := now r0 + windowMs |}).
  { rewrite contact_route_hits, Hlim. apply lookup_insert_eq. }
  destruct (serve_window rest (ip r0) _ _ _ Hh1 Hin) as [Hi Hh].
  split.
  - intros [| i] sv r Hsv Hr Hip; simpl in Hsv, Hr.
    + injection Hsv as <-. unfold serve_one. cbn [fst reached].
      rewrite Hlim. split; [reflexivity |]. simpl. lia.
    + specialize (Hi i sv r Hsv Hr Hip). cbn zeta in Hi |- *.
      change (take (S i) (r0 :: rest)) with (r0 :: take i rest).
      unfold from_address in *. rewrite filter_cons_True by reflexivity.
      exact Hi.
  - intros r Hip Hlate.
    assert (Hnw : no_window (hits (serve rest (contact_route r0 w).2).2) (ip r) (now r)).
    { unfold no_window. rewrite Hip, Hh. simpl. lia. }
    pose proof (contactLimiter_fresh r _ Hnw) as Hr.
    split; [now rewrite Hr |]. unfold contact_route at 1. now rewrite Hr.
Qed.

(** ** The admin guard *)

Lemma split_first_field (s : string) :
  ∃ t, split " " s = first_field s :: t.
Proof.
  induction s as [| c s [t IH]]; simpl; [eauto |].
  destruct (Ascii.eqb c " "); [eauto |]. rewrite IH. eauto.
Qed.

Lemma prefix_app (p s : string) :
  String.prefix p s = true → ∃ tail, s = p +:+ tail.
Proof.
  revert s. induction p as [| c p IH]; intros s; [exists s; reflexivity |].
  destruct s as [| d s]; simpl; [discriminate |].
  destruct (ascii_dec c d) as [<- | _]; [| discriminate].
  intros H. destruct (IH _ H) as [tail ->]. eauto.
Qed.

Lemma token_of_bearer (tail : string) :
  split " " ("Bearer " +:+ tail) !! 1%nat = Some (first_field tail).
Proof.
  destruct (split_first_field tail) as [t Ht].
  rewrite !append_cons. change ("" +:+ tail) with tail.
  cbn. now rewrite Ht.
Qed.

(** C4, as amended.  Without a header, or with one that does not start with
    "Bearer ", the answer is 401 "Unauthorized".  Otherwise the token is the
    text between that first space and the next one (or the end of the
    header); what follows a second space is ignored.  A token that is not
    the configured secret is answered 403 "Forbidden", and the request goes
    on to the listing exactly when the token equals the secret. *)
Theorem adminAuth_decides (req : AdminRequest) :
  match authorization req with
  | None => adminAuth req = Refused (respond 401 (Error "Unauthorized"))
  | Some h =>
      if startsWith h "Bearer "
      then ∃ tail,
             h = "Bearer " +:+ tail
             ∧ adminAuth req =
                 if bool_decide (Some (first_field tail) = ADMIN_API_KEY env)
                 then Next
                 else Refused (respond 403 (Error "Forbidden"))
      else adminAuth req = Refused (respond 401 (Error "Unauthorized"))
  end.
Proof.
  unfold adminAuth. destruct (authorization req) as [h |]; [| reflexivity].
  destruct (startsWith h "Bearer ") eqn:Hp.
  - apply prefix_app in Hp as Hh. destruct Hh as [tail ->]. exists tail.
    split; [reflexivity |].
    change (String.eqb ("Bearer " +:+ tail) "") with false. cbn [orb negb].
    rewrite token_of_bearer.
    do 2 case_bool_decide; congruence.
  - now rewrite orb_true_r.
Qed.

(** ** The admin listing *)






(** What the listing answers when both statements succeed. *)
Lemma admin_messages_listing (req : AdminRequest) (w : World) :
  let page := or_number (parseInt (query_page req)) 1 in
  let limit := or_number (parseInt (query_limit req)) 20 in
  let total := Z.of_nat (length (messages w)) in
  pool_fault (QSelect limit ((page - 1) * limit)) = None →
  pool_fault QCount = None →
  0 ≤ limit → 0 ≤ (page - 1) * limit →
  admin_messages req w =
    (respond 200
       (Listing page limit total (ceil_div total limit)
          (take (Z.to_nat limit)
             (drop (Z.to_nat ((page - 1) * limit)) (order_desc (messages w))))),
     w).
Proof.
  intros page limit total Hsel Hcount Hl Ho.
  unfold admin_messages, select_messages, count_messages.
  fold page limit. rewrite Hsel, Hcount.
  destruct (Z.ltb_spec limit 0); [lia |].
  destruct (Z.ltb_spec ((page - 1) * limit) 0); [lia |]. reflexivity.
Qed.


(** C5, the code at the failing inputs.  A limit of 500 is used as it is:
    the statement is run with [LIMIT 500] and the answer says [limit: 500].
    A page of -1 is not replaced by the default either: the offset is
    negative, the store refuses the statement and the answer is 500. *)
Theorem listing_limit_uncapped (w : World) :
  (∀ req,
     query_page req = None → query_limit req = Some "500" →
     pool_fault (QSelect 500 0) = None → pool_fault QCount = None →
     admin_messages req w =
       (respond 200
          (Listing 1 500 (Z.of_nat (length (messages w)))
             (ceil_div (Z.of_nat (length (messages w))) 500)
             (take 500 (order_desc (messages w)))),
        w))
  ∧ (∀ req,
       query_page req = Some "-1" → query_limit req = None →
       pool_fault (QSelect 20 (-40)) = None →
       admin_messages req w =
         (respond 500 (Error "Failed to fetch messages"),
          with_console
            (fun out =>
               out ++ [[("timestamp", JString (toISOString (admin_now req)));
                        ("type", JString "ADMIN_FETCH_FAILED");
                        ("error", JString "OFFSET must not be negative")]]) w)).
Proof.
  split.
  - intros req Hp Hl Hsel Hcount.
    pose proof (admin_messages_listing req w) as H. cbn zeta in H.
    rewrite Hp, Hl in H.
    change (or_number (parseInt None) 1) with 1 in H.
    change (or_number (parseInt (Some "500")) 20) with 500 in H.
    now apply H.
  - intros req Hp Hl Hsel.
    unfold admin_messages, select_messages. rewrite Hp, Hl.
    change (parseInt (Some "-1")) with (Some (-1)).
    change (or_number (Some (-1)) 1) with (-1).
    change (or_number (parseInt None) 20) with 20.
    change ((-1 - 1) * 20) with (-40).
    now rewrite Hsel.
Qed.

(** ** The rows of the store *)

Lemma nonempty_length (s : string) : s ≠ "" → (1 ≤ String.length s)%nat.
Proof. destruct s; [congruence | simpl; lia]. Qed.

(** C10, as amended.  The pipeline leaves the store alone or appends one
    row, and then the answer is the 200 of an accepted submission and the
    row is built from a validated payload: first and last name are not
    empty; the address is a string that [isEmail] accepts, of at most 254
    characters; the subject is NULL or a non-empty string; the body is the
    escaped form of a message of 1 to 1000 characters, so it has between 1
    and 6000 characters. *)
Theorem created_row_invariants (req : ContactRequest) (w : World) :
  messages (contact_handler req w).2 = messages w
  ∨ ∃ row em m,
      messages (contact_handler req w).2 = messages w ++ [row]
      ∧ (contact_handler req w).1 = Responded (respond 200 Success)
      ∧ (1 ≤ String.length (p_first_name (columns row)))%nat
      ∧ (1 ≤ String.length (p_last_name (columns row)))%nat
      ∧ p_email (columns row) = JString em
      ∧ isEmail em = true ∧ (String.length em ≤ 254)%nat
      ∧ (p_subject (columns row) = JNull
         ∨ ∃ sj, p_subject (columns row) = JString sj ∧ sj ≠ "")
      ∧ message (body req) = JString m
      ∧ (1 ≤ String.length m ≤ 1000)%nat
      ∧ p_message (columns row) = escape_string m
      ∧ (1 ≤ String.length (p_message (columns row)) ≤ 6 * 1000)%nat.
Proof.
  unfold contact_handler.
  destruct (truthy (company (body req))); [now left |].
  destruct (validate (body req)) as [[r |] |] eqn:Hv; try (now left).
  destruct (sanitize (body req)) as [s |] eqn:Hs; [| now left].
  unfold deliver, try_deliver.
  destruct (resend_send _) as [e | [e |]]; try (now left).
  destruct (pool_fault _); [now left |]. right.
  apply validate_passes in Hv as (Hf & Hl & Hm & Hlen & em & Hem & Hne & Hok & Hle).
  apply sanitize_inv in Hs as (m & f & l & sj & Em & Ef & El & Esj & ->).
  rewrite Ef in Hf. rewrite El in Hl. rewrite Em in Hm, Hlen.
  apply (truthy_string_inv _ _ eq_refl), nonempty_length in Hf, Hl, Hm.
  simpl in Hlen. apply bool_decide_eq_false in Hlen.
  pose proof (escape_string_length f). pose proof (escape_string_length l).
  pose proof (escape_string_length m).
  eexists. exists em, m.
  split; [reflexivity |]. split; [reflexivity |].
  cbn [columns insert_params p_first_name p_last_name p_email p_subject
       p_message sanitizedFirstName sanitizedLastName sanitizedSubject
       sanitizedMessage].
  repeat (split; [first [reflexivity | assumption | lia] |]).
  split.
  - destruct (String.eqb_spec (escape_string sj) "") as [| Hsj]; [now left |].
    right. eauto.
  - repeat (split; [first [reflexivity | assumption | lia] |]). lia.
Qed.

(** * Further facts about the handlers *)

(** ** The format checks of the pipeline *)

(** X1.  Lines 69 to 74.  Past the honeypot and the required-field check, an
    address that [isEmail] turns down is answered 400 "Please provide a valid
    email address" and nothing else happens; neither the length of the
    address nor the message is looked at. *)
Theorem invalid_email_rejected (req : ContactRequest) (w : World) (em : string) :
  truthy (company (body req)) = false →
  truthy (firstName (body req)) = true →
  truthy (lastName (body req)) = true →
  truthy (message (body req)) = true →
  email (body req) = JString em → em ≠ "" →
  isEmail em = false →
  contact_handler req w =
    (Responded (respond 400 (Error "Please provide a valid email address")), w).
Proof.
  intros Hc Hf Hl Hm Hem Hne Hv. unfold contact_handler, validate.
  rewrite Hc, Hf, Hl, Hm, Hem, (truthy_string _ Hne). cbn. now rewrite Hv.
Qed.


Definition is_string (v : JSValue) : bool :=
  match v with JString _ => true | _ => false end.

Lemma sanitize_throws_iff (p : Payload) :
  (∃ m, sanitize p = Throw m) ↔
  forallb is_string [message p; firstName p; lastName p; subject p] = false.
Proof.
  unfold sanitize.
  destruct (message p), (firstName p), (lastName p), (subject p); cbn;
    split; intros H; first [reflexivity | discriminate H | eauto | idtac];
    destruct H as [m H]; discriminate H.
Qed.

Lemma validate_throws_iff (p : Payload) :
  (∃ m, validate p = Throw m) ↔
  truthy (firstName p) = true ∧ truthy (lastName p) = true
  ∧ truthy (email p) = true ∧ truthy (message p) = true
  ∧ is_string (email p) = false.
Proof.
  unfold validate.
  destruct (truthy (firstName p)), (truthy (lastName p)),
    (truthy (email p)) eqn:Hem, (truthy (message p)); simpl;
    try (split; [intros [m H]; discriminate H | intros (? & ? & ? & ? & ?); discriminate]).
  destruct (email p) as [| | b | n | em]; try discriminate Hem; cbn;
    try (split; [intros _; repeat split; reflexivity | eauto]; fail).
  split; [| intros (_ & _ & _ & _ & H); discriminate H].
  intros [m H]. exfalso.
  destruct (isEmail em); cbn in H; [| discriminate H].
  case_bool_decide; cbn in H; [| discriminate H].
  destruct (length_gt (message p) 1000); discriminate H.
Qed.

(** X3.  The handler leaves a request unanswered exactly when a field reaches
    validator with a value that is not a string: a truthy address that is
    not a string (line 70), or, once validation has passed, a message, name
    or subject that is not a string (lines 91 to 94).  Nothing is printed,
    sent or stored then. *)
Theorem unanswered_iff (req : ContactRequest) (w : World) :
  ((∃ m, (contact_handler req w).1 = Unhandled m) ↔
   truthy (company (body req)) = false
   ∧ ((truthy (firstName (body req)) = true ∧ truthy (lastName (body req)) = true
       ∧ truthy (email (body req)) = true ∧ truthy (message (body req)) = true
       ∧ is_string (email (body req)) = false)
      ∨ (validate (body req) = Normal None
         ∧ forallb is_string
             [message (body req); firstName (body req); lastName (body req);
              subject (body req)] = false)))
  ∧ ∀ m, (contact_handler req w).1 = Unhandled m → (contact_handler req w).2 = w.
Proof.
  pose proof (validate_throws_iff (body req)) as Hvt.
  pose proof (sanitize_throws_iff (body req)) as Hst.
  unfold contact_handler.
  destruct (truthy (company (body req))); cbn [fst snd].
  { split; [| discriminate]. split; [intros [m H]; discriminate H |].
    intros [H _]; discriminate H. }
  destruct (validate (body req)) as [[r |] |] eqn:Hv; cbn [fst snd].
  - split; [| discriminate]. split; [intros [m H]; discriminate H |].
    intros (_ & [H | [H _]]); [| discriminate H].
    apply Hvt in H as [m H]. discriminate H.
  - destruct (sanitize (body req)) as [s |] eqn:Hs; cbn [fst snd].
    + assert (Hans : ∀ m, (deliver req s w).1 ≠ Unhandled m).
      { intros m. unfold deliver, try_deliver.
        destruct (resend_send _) as [e | [e |]]; try discriminate.
        destruct (pool_fault _); discriminate. }
      split; [| intros m H; now apply Hans in H].
      split; [intros [m H]; now apply Hans in H |].
      intros (_ & [H | [_ H]]).
      * apply Hvt in H as [m H]. discriminate H.
      * apply Hst in H as [m H]. discriminate H.
    + split; [| reflexivity]. split; [| eauto].
      intros _. split; [reflexivity |]. right. split; [reflexivity |].
      apply Hst. eauto.
  - split; [| reflexivity]. split; [| eauto].
    intros _. split; [reflexivity |]. left. apply Hvt. eauto.
Qed.

(** ** The effects of the pipeline *)

Lemma validate_string_payload (p : Payload) (f l em m : string) :
  firstName p = JString f → f ≠ "" → lastName p = JString l → l ≠ "" →
  email p = JString em → em ≠ "" → isEmail em = true →
  (String.length em ≤ 254)%nat →
  message p = JString m → m ≠ "" → (String.length m ≤ 1000)%nat →
  validate p = Normal None.
Proof.
  intros Hf Hfne Hl Hlne Hem Hemne Hv Hlen Hm Hmne Hmlen.
  apply validate_passes. rewrite Hf, Hl, Hm.
  rewrite !truthy_string by assumption. repeat split; [| eauto 6].
  simpl. now rewrite bool_decide_false by lia.
Qed.

(** X4.  Lines 96 to 145.  A payload of strings that passes the checks, sent
    while the provider and the store both accept, is answered 200; the world
    gains one provider call, one row (numbered by the store, stamped with the
    instant, carrying the source address) and one SUCCESS line with the
    source address, the address and the subject as submitted, not escaped. *)
Theorem submission_succeeds
    (req : ContactRequest) (w : World) (f l em sj m : string) :
  truthy (company (body req)) = false →
  firstName (body req) = JString f → f ≠ "" →
  lastName (body req) = JString l → l ≠ "" →
  email (body req) = JString em → em ≠ "" → isEmail em = true →
  (String.length em ≤ 254)%nat →
  subject (body req) = JString sj →
  message (body req) = JString m → m ≠ "" → (String.length m ≤ 1000)%nat →
  let s := {| sanitizedMessage := escape_string m;
              sanitizedFirstName := escape_string f;
              sanitizedLastName := escape_string l;
              sanitizedSubject := escape_string sj |} in
  resend_send (contact_email (body req) s) = SendResolves None →
  pool_fault (QInsert (insert_params req s)) = None →
  (contact_handler req w).1 = Responded (respond 200 Success)
  ∧ provider_calls (contact_handler req w).2
    = provider_calls w ++ [contact_email (body req) s]
  ∧ messages (contact_handler req w).2
    = messages w ++ [{| id := next_id (messages w);
                        columns := insert_params req s;
                        created_at := now req |}]
  ∧ console (contact_handler req w).2
    = console w ++ [line (now req) "SUCCESS"
                      [("ip", JString (ip req)); ("email", JString em);
                       ("subject", JString sj)]]
  ∧ hits (contact_handler req w).2 = hits w.
Proof.
  intros Hc Hf Hfne Hl Hlne Hem Hemne Hv Hlen Hsj Hm Hmne Hmlen s Hsend Hins.
  pose proof (validate_string_payload _ _ _ _ _ Hf Hfne Hl Hlne Hem Hemne Hv
                Hlen Hm Hmne Hmlen) as Hval.
  pose proof (sanitize_strings _ _ _ _ _ Hm Hf Hl Hsj) as Hsan. fold s in Hsan.
  unfold contact_handler. rewrite Hc, Hval, Hsan.
  unfold deliver, try_deliver. rewrite Hsend, Hins. cbn [fst snd].
  repeat split. rewrite log_console, Hem, Hsj. reflexivity.
Qed.

(** X5.  Lines 123 to 155.  When the provider has accepted the message and the
    [INSERT] is rejected, the answer is the same generic 500 and an ERROR
    line carries the store's message; no row is added, and the call to the
    provider has been made all the same: nothing undoes it. *)
Theorem store_failure_after_dispatch
    (req : ContactRequest) (w : World) (s : Sanitized) (e : string) :
  truthy (company (body req)) = false →
  validate (body req) = Normal None →
  sanitize (body req) = Normal s →
  resend_send (contact_email (body req) s) = SendResolves None →
  pool_fault (QInsert (insert_params req s)) = Some e →
  (contact_handler req w).1
  = Responded (respond 500 (Error "Failed to send message. Please try again later."))
  ∧ provider_calls (contact_handler req w).2
    = provider_calls w ++ [contact_email (body req) s]
  ∧ messages (contact_handler req w).2 = messages w
  ∧ console (contact_handler req w).2
    = console w ++ [line (now req) "ERROR"
                      [("ip", JString (ip req)); ("error", JString e)]].
Proof.
  intros Hc Hv Hs Hsend Hins. unfold contact_handler. rewrite Hc, Hv, Hs.
  unfold deliver, try_deliver. rewrite Hsend, Hins. repeat split.
Qed.

(** X6.  The answers of the handler are 200, 400 and 500 only, and a 400 is one
    of the four messages of lines 65 to 88 and comes without any effect: no
    line printed, no provider call, no row. *)
Theorem answers_of_the_pipeline (req : ContactRequest) (w : World) (r : Response) :
  (contact_handler req w).1 = Responded r →
  (status r = 200 ∧ json r = Success)
  ∨ (status r = 500
     ∧ json r = Error "Failed to send message. Please try again later.")
  ∨ (status r = 400 ∧ (contact_handler req w).2 = w
     ∧ ∃ text, json r = Error text
         ∧ text ∈ ["Missing required fields.";
                   "Please provide a valid email address";
                   "Email address is too long";
                   "Message must be less than 1000 characters"]).
Proof.
  unfold contact_handler.
  destruct (truthy (company (body req))); cbn [fst snd].
  { intros [= <-]. now left. }
  destruct (validate (body req)) as [[r' |] |] eqn:Hv; cbn [fst snd].
  - intros [= <-]. right. right. unfold validate in Hv.
    repeat match type of Hv with
    | (if ?b then _ else _) = _ => destruct b
    | (?c ≫= _) = _ => destruct c as [[] |]; cbn in Hv
    end; try discriminate Hv; injection Hv as <-;
      (split; [reflexivity |]); (split; [reflexivity |]);
      eexists; (split; [reflexivity |]); set_solver.
  - destruct (sanitize (body req)) as [s |]; [| discriminate].
    unfold deliver, try_deliver.
    destruct (resend_send _) as [e | [e |]]; cbn [fst snd];
      try (intros [= <-]; right; left; now split).
    destruct (pool_fault _); cbn [fst snd]; intros [= <-];
      [right; left | left]; now split.
  - discriminate.
Qed.

(** The sanitized payload of a request that gets as far as the [try]. *)
Definition cleared (p : Payload) : option Sanitized :=
  if truthy (company p) then None
  else match validate p with
       | Normal None =>
           match sanitize p with
           | Normal s => Some s
           | Throw _ => None
           end
       | _ => None
       end.

(** X7.  The provider is called exactly for the requests that get as far as the
    [try], once, with the message built from the sanitized fields; a row is
    only ever inserted after such a call has resolved without an error, and
    it is the row of that request. *)
Theorem dispatch_precedes_insert (req : ContactRequest) (w : World) :
  match cleared (body req) with
  | None =>
      provider_calls (contact_handler req w).2 = provider_calls w
      ∧ messages (contact_handler req w).2 = messages w
  | Some s =>
      provider_calls (contact_handler req w).2
      = provider_calls w ++ [contact_email (body req) s]
      ∧ (messages (contact_handler req w).2 = messages w
         ∨ (resend_send (contact_email (body req) s) = SendResolves None
            ∧ messages (contact_handler req w).2
              = messages w ++ [{| id := next_id (messages w);
                                  columns := insert_params req s;
                                  created_at := now req |}]))
  end.
Proof.
  unfold cleared, contact_handler.
  destruct (truthy (company (body req))); [now split |].
  destruct (validate (body req)) as [[r |] |]; try (now split).
  destruct (sanitize (body req)) as [s |]; [| now split].
  unfold deliver, try_deliver.
  destruct (resend_send _) as [e | [e |]] eqn:Hsend;
    try (split; [reflexivity | now left]).
  destruct (pool_fault _); (split; [reflexivity |]); [now left | right].
  now split.
Qed.

(** ** The logger *)

(** The member [k] of an object, and the value the last [k] of a literal
    gives. *)
Fixpoint object_get (k : string) (o : LogLine) : option JSValue :=
  match o with
  | [] => None
  | (k', v) :: o' => if String.eqb k' k then Some v else object_get k o'
  end.

Definition last_value (k : string) (data : LogLine) : option JSValue :=
  fold_left (fun acc kv => if String.eqb kv.1 k then Some kv.2 else acc) data None.

Lemma object_set_get (k k' : string) (v : JSValue) (o : LogLine) :
  object_get k' (object_set k v o)
  = if String.eqb k k' then Some v else object_get k' o.
Proof.
  induction o as [| [k0 v0] o IH]; simpl.
  - reflexivity.
  - destruct (String.eqb_spec k0 k) as [-> | Hne]; simpl.
    + destruct (String.eqb k k'); reflexivity.
    + rewrite IH. destruct (String.eqb_spec k0 k') as [-> | _]; [| reflexivity].
      destruct (String.eqb_spec k k'); congruence.
Qed.

Lemma object_set_keys (k : string) (v : JSValue) (o : LogLine) :
  NoDup o.*1 → NoDup (object_set k v o).*1
  ∧ ∀ x, x ∈ (object_set k v o).*1 → x = k ∨ x ∈ o.*1.
Proof.
  induction o as [| [k0 v0] o IH]; simpl; intros Hnd.
  - split; [apply NoDup_singleton |].
    intros x Hx. apply list_elem_of_singleton in Hx. now left.
  - apply NoDup_cons in Hnd as [Hk0 Hnd]. destruct (IH Hnd) as [IH1 IH2].
    destruct (String.eqb_spec k0 k) as [-> | Hne]; simpl.
    + split; [now apply NoDup_cons |]. intros x Hx. now right.
    + split.
      * apply NoDup_cons. split; [| exact IH1].
        intros Hin. apply IH2 in Hin as [-> | Hin]; [now apply Hne | now apply Hk0].
      * intros x Hx. apply elem_of_cons in Hx as [-> | Hx].
        -- right. apply elem_of_cons. now left.
        -- apply IH2 in Hx as [-> | Hx]; [now left |].
           right. apply elem_of_cons. now right.
Qed.

Lemma last_value_from (k : string) (data : LogLine) (acc : option JSValue) :
  fold_left (fun acc kv => if String.eqb kv.1 k then Some kv.2 else acc) data acc
  = match last_value k data with
    | Some v => Some v
    | None => acc
    end.
Proof.
  unfold last_value. revert acc.
  induction data as [| [k0 v0] data IH]; intros acc; simpl; [reflexivity |].
  destruct (String.eqb k0 k); [| apply IH].
  rewrite (IH (Some v0)). now destruct (fold_left _ data None).
Qed.

Lemma object_spread_get (k : string) (data o : LogLine) :
  object_get k (object_spread o data)
  = match last_value k data with
    | Some v => Some v
    | None => object_get k o
    end.
Proof.
  unfold object_spread. revert o.
  induction data as [| [k0 v0] data IH]; intros o; [reflexivity |].
  cbn [fold_left fst snd]. rewrite IH, object_set_get.
  unfold last_value at 2. cbn [fold_left fst snd]. rewrite last_value_from.
  destruct (last_value k data); [reflexivity |].
  now destruct (String.eqb k0 k).
Qed.

Lemma object_spread_keys (data o : LogLine) :
  NoDup o.*1 → NoDup (object_spread o data).*1.
Proof.
  unfold object_spread. revert o.
  induction data as [| [k v] data IH]; intros o Hnd; simpl; [exact Hnd |].
  apply IH. now apply object_set_keys.
Qed.

Lemma object_get_fresh (k : string) (o : LogLine) :
  k ∉ o.*1 → object_get k o = None.
Proof.
  induction o as [| [k1 v1] o IH]; intros Hk; [reflexivity |].
  rewrite fmap_cons, not_elem_of_cons in Hk. destruct Hk as [Hne Hk].
  cbn [object_get]. destruct (String.eqb_spec k1 k) as [-> | _]; [now destruct Hne |].
  now apply IH.
Qed.

Lemma stringified_get (k : string) (o : LogLine) :
  NoDup o.*1 →
  object_get k (stringified o)
  = match object_get k o with
    | Some JUndefined => None
    | other => other
    end.
Proof.
  unfold stringified, LogLine.
  induction o as [| [k0 v0] o IH]; intros Hnd; [reflexivity |].
  rewrite fmap_cons in Hnd. apply NoDup_cons in Hnd as [Hk0 Hnd].
  cbn [fst] in Hk0. specialize (IH Hnd). rewrite filter_cons. cbn [fst snd object_get].
  destruct (decide (v0 ≠ JUndefined)) as [Hv | Hv]; cbn [object_get].
  - destruct (String.eqb k0 k); [| exact IH]. destruct v0; congruence.
  - apply dec_stable in Hv. subst v0. rewrite IH.
    destruct (String.eqb_spec k0 k) as [<- | _]; [| reflexivity].
    now rewrite (object_get_fresh _ _ Hk0).
Qed.

(** X8.  utils/logger.js.  In the printed line each key of [data] shows the last
    value [data] gives it, and is left out when that value is [undefined];
    the logger's own [timestamp] and [type] only show when [data] has no key
    of that name.  So a [type] among the data replaces the kind of the
    event. *)
Theorem logEvent_member (type : string) (data : LogLine) (t : Z) (k : string) :
  object_get k (logEvent type data t)
  = match last_value k data with
    | Some JUndefined => None
    | Some v => Some v
    | None =>
        if String.eqb k "timestamp" then Some (JString (toISOString t))
        else if String.eqb k "type" then Some (JString type)
        else None
    end.
Proof.
  unfold logEvent.
  rewrite stringified_get.
  2:{ apply object_spread_keys. simpl. apply NoDup_cons. split.
      - intros H. apply list_elem_of_singleton in H. discriminate H.
      - apply NoDup_singleton. }
  rewrite object_spread_get.
  destruct (last_value k data) as [v |]; [now destruct v |].
  cbn [object_get].
  rewrite (String.eqb_sym k "timestamp"), (String.eqb_sym k "type").
  destruct (String.eqb "timestamp" k); [reflexivity |].
  destruct (String.eqb "type" k); reflexivity.
Qed.

(** ** The admin listing, page by page *)






(** X11.  Lines 197 to 204.  When one of the two statements is rejected, the
    answer is 500 "Failed to fetch messages" and one line is printed, whose
    [type] is ADMIN_FETCH_FAILED (the [type] of the data takes the place of
    ERROR) and whose [error] is the message of the rejection; the table is
    not touched. *)
Theorem listing_failure (req : AdminRequest) (w : World) (e : string) :
  let page := or_number (parseInt (query_page req)) 1 in
  let limit := or_number (parseInt (query_limit req)) 20 in
  pool_fault (QSelect limit ((page - 1) * limit)) = Some e
  ∨ (pool_fault (QSelect limit ((page - 1) * limit)) = None
     ∧ 0 ≤ limit ∧ 0 ≤ (page - 1) * limit ∧ pool_fault QCount = Some e) →
  admin_messages req w =
    (respond 500 (Error "Failed to fetch messages"),
     with_console
       (fun out =>
          out ++ [[("timestamp", JString (toISOString (admin_now req)));
                   ("type", JString "ADMIN_FETCH_FAILED");
                   ("error", JString e)]]) w).
Proof.
  intros page limit Hfail.
  unfold admin_messages, select_messages, count_messages. fold page limit.
  destruct Hfail as [Hsel | (Hsel & Hl & Ho & Hcount)]; rewrite Hsel.
  - reflexivity.
  - destruct (Z.ltb_spec limit 0); [lia |].
    destruct (Z.ltb_spec ((page - 1) * limit) 0); [lia |].
    cbn. now rewrite Hcount.
Qed.

(** ** The admin guard and the limiter, seen from the routes *)

Definition space_free (s : string) : Prop := first_field s = s.

Lemma first_field_idem (s : string) : first_field (first_field s) = first_field s.
Proof.
  induction s as [| c s IH]; [reflexivity |]. simpl.
  destruct (Ascii.eqb c " ") eqn:E; [reflexivity |]. simpl. now rewrite E, IH.
Qed.

(** X12.  Lines 19 to 33.  A request goes past the guard only when a secret is
    configured, the secret holds no space, and the header starts with
    "Bearer " and the secret.  With [ADMIN_API_KEY] unset, or set to a text
    with a space in it, every request is refused. *)
Theorem adminAuth_sound (req : AdminRequest) :
  adminAuth req = Next →
  ∃ key tail,
    ADMIN_API_KEY env = Some key ∧ space_free key
    ∧ authorization req = Some ("Bearer " +:+ tail)
    ∧ first_field tail = key.
Proof.
  unfold adminAuth. destruct (authorization req) as [h |]; [| discriminate].
  destruct (String.eqb h ""); [discriminate |].
  destruct (startsWith h "Bearer ") eqn:Hp; [| discriminate]. cbn [orb negb].
  apply prefix_app in Hp as [tail ->]. rewrite token_of_bearer.
  case_bool_decide as Hk; [discriminate |]. intros _.
  exists (first_field tail), tail.
  repeat split; [now symmetry | apply first_field_idem].
Qed.


(** X14.  Lines 39 to 54.  A request the limiter refuses never reaches the
    pipeline: it is answered 429, one RATE_LIMITED line with its address is
    printed, no provider call is made and no row is stored.  A request the
    limiter lets through is handled by the pipeline with nothing printed in
    between. *)
Theorem limiter_footprint (req : ContactRequest) (w : World) :
  match (contactLimiter req w).1 with
  | Some r =>
      r = too_many
      ∧ (contact_route req w).1 = Responded too_many
      ∧ provider_calls (contact_route req w).2 = provider_calls w
      ∧ messages (contact_route req w).2 = messages w
      ∧ console (contact_route req w).2
        = console w ++ [line (now req) "RATE_LIMITED" [("ip", JString (ip req))]]
  | None =>
      contact_route req w = contact_handler req (contactLimiter req w).2
      ∧ console (contactLimiter req w).2 = console w
      ∧ provider_calls (contactLimiter req w).2 = provider_calls w
      ∧ messages (contactLimiter req w).2 = messages w
  end.
Proof.
  unfold contact_route, contactLimiter, increment. cbn zeta.
  case_bool_decide; cbn [fst snd rate_limited]; repeat split.
Qed.

(** * The earlier variant of the server

    The older copy of the server sends its mail through nodemailer.  Its
    handler is registered without the limiter; it runs the checks and the
    escapes of the current one (the same source text), prints plain lines
    next to the events, and differs in what it sends, stores and answers. *)

Section Legacy.

(** The argument of [transporter.sendMail]. *)
Record LegacyMail : Type := {
  legacy_from : string;
  legacy_to : option string;
  legacy_subject : JSValue;
  legacy_text : string;
}.

(** The promise of [sendMail] resolves to an object with a [messageId], or
    rejects with an error that has a [message] and a [code]. *)
Inductive LegacySend : Type :=
  | MailSent (messageId : string)
  | MailFails (message : string) (code : JSValue).

(** What goes to standard output: the text of [console.log], or an event of
    [logEvent]. *)
Inductive Printed : Type :=
  | Plain (text : string)
  | Event (l : LogLine).

Record LegacyWorld : Type := {
  stdout : list Printed;
  smtp_calls : list LegacyMail;
  legacy_table : list (Z * list JSValue);
}.

Variable sendMail : LegacyMail → LegacySend.
Variable legacy_pool_fault : list JSValue → option (string * JSValue).

Definition print (l : list Printed) (w : LegacyWorld) : LegacyWorld :=
  {| stdout := stdout w ++ l; smtp_calls := smtp_calls w;
     legacy_table := legacy_table w |}.

Definition dquote : string := String "034" EmptyString.

(** Lines 87 to 91 of the older file. *)
Definition legacy_mail (p : Payload) (s : Sanitized) : LegacyMail :=
  {| legacy_from :=
       dquote +:+ sanitizedFirstName s +:+ " " +:+ sanitizedLastName s +:+ dquote
       +:+ " <" +:+ ToString (email p) +:+ ">";
     legacy_to := EMAIL_USER env;
     legacy_subject := or_value (subject p) (JString "New Portfolio Contact");
     legacy_text :=
       "Name: " +:+ sanitizedFirstName s +:+ " " +:+ sanitizedLastName s
       +:+ " Email: " +:+ ToString (email p)
       +:+ " Subject: " +:+ sanitizedSubject s
       +:+ " Message: " +:+ sanitizedMessage s |}.

(** Lines 83 to 117 of the older file, the body of the [try]. *)
Definition legacy_try (req : ContactRequest) (s : Sanitized) (w : LegacyWorld)
  : Completion Response * JSValue * LegacyWorld :=
  let mail := legacy_mail (body req) s in
  let w1 :=
    print [Plain ("Attempting to send email from: " +:+ ToString (email (body req)));
           Plain ("Using Gmail SMTP: " +:+ default "undefined" (EMAIL_USER env))] w in
  let w2 := {| stdout := stdout w1; smtp_calls := smtp_calls w1 ++ [mail];
               legacy_table := legacy_table w1 |} in
  match sendMail mail with
  | MailFails m code => (Throw m, code, w2)
  | MailSent messageId =>
      let w3 := print [Plain ("Email sent successfully: " +:+ messageId)] w2 in
      match legacy_pool_fault (legacy_insert_values req) with
      | Some (m, code) => (Throw m, code, w3)
      | None =>
          let w4 := {| stdout := stdout w3; smtp_calls := smtp_calls w3;
                       legacy_table :=
                         legacy_table w3 ++ [(now req, legacy_insert_values req)] |} in
          (Normal (respond 200 Success), JUndefined,
           print [Event (logEvent "SUCCESS"
                           [("ip", JString (ip req)); ("email", email (body req));
                            ("subject", subject (body req))] (now req))] w4)
      end
  end.

(** Lines 40 to 138 of the older file.  What [console.error] writes is not
    part of the world. *)
Definition legacy_contact_handler (req : ContactRequest) (w : LegacyWorld)
  : Outcome * LegacyWorld :=
  let p := body req in
  if truthy (company p)
  then (Responded (respond 200 Success),
        print [Event (logEvent "SPAM_BLOCKED" [("ip", JString (ip req))] (now req))] w)
  else
    match validate p with
    | Throw m => (Unhandled m, w)
    | Normal (Some r) => (Responded r, w)
    | Normal None =>
        match sanitize p with
        | Throw m => (Unhandled m, w)
        | Normal s =>
            match legacy_try req s w with
            | (Normal r, _, w') => (Responded r, w')
            | (Throw m, code, w') =>
                (Responded (respond 500 (Error "Failed to send email")),
                 print [Event (logEvent "ERROR"
                                 [("ip", JString (ip req)); ("error", JString m);
                                  ("details", code)] (now req))] w')
            end
        end
    end.

(** X15.  The older handler escapes for the text of the mail only.  When it
    accepts a submission, the row it inserts holds the first name, last name,
    subject and message exactly as submitted, and the subject line of the
    mail is the submitted subject too; the text of the mail is built from the
    escaped forms. *)
Theorem legacy_stores_as_submitted
    (req : ContactRequest) (w w' : LegacyWorld) :
  truthy (company (body req)) = false →
  legacy_contact_handler req w = (Responded (respond 200 Success), w') →
  ∃ (f l sj m : string) (mail : LegacyMail),
    firstName (body req) = JString f ∧ lastName (body req) = JString l
    ∧ subject (body req) = JString sj ∧ message (body req) = JString m
    ∧ legacy_table w' =
        legacy_table w
        ++ [(now req,
             [JString f; JString l; email (body req);
              if String.eqb sj "" then JNull else JString sj;
              JString m; JString (ip req)])]
    ∧ smtp_calls w' = smtp_calls w ++ [mail]
    ∧ legacy_subject mail =
        (if String.eqb sj "" then JString "New Portfolio Contact" else JString sj)
    ∧ legacy_text mail =
        "Name: " +:+ escape_string f +:+ " " +:+ escape_string l
        +:+ " Email: " +:+ ToString (email (body req))
        +:+ " Subject: " +:+ escape_string sj
        +:+ " Message: " +:+ escape_string m.
Proof.
  intros Hc. unfold legacy_contact_handler. rewrite Hc.
  destruct (validate (body req)) as [[r |] |] eqn:Hv.
  - unfold validate in Hv. intros [= -> <-]. exfalso.
    repeat match type of Hv with
    | (if ?b then _ else _) = _ => destruct b; [discriminate Hv |]
    | (?c ≫= _) = _ => destruct c as [[] |]; cbn in Hv
    | _ => discriminate Hv
    end.
  - destruct (sanitize (body req)) as [s |] eqn:Hs; [| discriminate].
    apply sanitize_inv in Hs as (m & f & l & sj & Hm & Hf & Hl & Hsj & ->).
    unfold legacy_try.
    destruct (sendMail _) as [mid | e code]; [| discriminate].
    destruct (legacy_pool_fault _) as [[e code] |]; [discriminate |].
    intros [= <-]. exists f, l, sj, m. eexists.
    repeat (split; [first [eassumption | reflexivity] |]).
    cbn [legacy_table print]. unfold legacy_insert_values, or_value.
    rewrite Hf, Hl, Hsj, Hm. cbn [truthy legacy_subject legacy_mail legacy_text].
    destruct (String.eqb sj "") eqn:E; repeat split;
      cbn [legacy_subject legacy_mail]; unfold or_value; rewrite Hsj;
      cbn [truthy]; now rewrite E.
  - discriminate.
Qed.

(** X16.  When [sendMail] rejects, the older handler answers 500 "Failed to send
    email", stores no row, and prints its two attempt lines and then one
    ERROR event with the source address, the message and, when the error has
    one, its code under [details]. *)
Theorem legacy_smtp_failure
    (req : ContactRequest) (w : LegacyWorld) (s : Sanitized)
    (e : string) (code : JSValue) :
  truthy (company (body req)) = false →
  validate (body req) = Normal None →
  sanitize (body req) = Normal s →
  sendMail (legacy_mail (body req) s) = MailFails e code →
  (legacy_contact_handler req w).1
  = Responded (respond 500 (Error "Failed to send email"))
  ∧ legacy_table (legacy_contact_handler req w).2 = legacy_table w
  ∧ stdout (legacy_contact_handler req w).2
    = stdout w
      ++ [Plain ("Attempting to send email from: " +:+ ToString (email (body req)));
          Plain ("Using Gmail SMTP: " +:+ default "undefined" (EMAIL_USER env));
          Event (line (now req) "ERROR"
                   ([("ip", JString (ip req)); ("error", JString e)]
                    ++ (if decide (code = JUndefined) then []
                        else [("details", code)])))].
Proof.
  intros Hc Hv Hs Hsend. unfold legacy_contact_handler. rewrite Hc, Hv, Hs.
  unfold legacy_try. rewrite Hsend. cbn [fst snd print stdout legacy_table].
  repeat split. rewrite <- app_assoc. do 3 f_equal.
  destruct code; reflexivity.
Qed.

End Legacy.

End Server.

(** * Concrete runs *)

(** Stand-ins for the services: an address check that asks for an [@], a
    provider and a store that accept everything, a provider that resolves
    with an error, and a clock that prints the instant in decimal. *)
Definition has_at (s : string) : bool :=
  bool_decide ("@"%char ∈ String.list_ascii_of_string s).
Definition provider_up (_ : Email) : SendResult := SendResolves None.
Definition provider_refusing (_ : Email) : SendResult :=
  SendResolves (Some "Invalid API key").
Definition store_up (_ : Query) : option string := None.
Definition decimal_clock (t : Z) : string := pretty t.
Definition sample_env : Env :=
  {| EMAIL_USER := Some "owner@example.com"; ADMIN_API_KEY := Some "s3cret" |}.

Definition empty_world : World :=
  {| console := []; provider_calls := []; messages := []; hits := ∅ |}.

Definition payload (f l e sj m c : JSValue) : Payload :=
  {| firstName := f; lastName := l; email := e; subject := sj; message := m;
     company := c |}.

Definition request (p : Payload) (t : Z) : ContactRequest :=
  {| body := p; ip := "203.0.113.7"; now := t |}.

(** A bot: the honeypot is filled in and nothing else is usable. *)
Definition spam_request : ContactRequest :=
  request (payload JUndefined (JString "") (JString "not an address")
             JUndefined JUndefined (JString "Acme Corp")) 0.

(** The submission of the README's test: no subject. *)
Definition readme_request : ContactRequest :=
  request (payload (JString "John") (JString "Doe") (JString "john@example.com")
             JUndefined (JString "Test message") (JString "")) 0.

Definition script_request : ContactRequest :=
  request (payload (JString "John") (JString "Doe") (JString "john@example.com")
             (JString "Hi") (JString "<script>alert(1)</script>") (JString "")) 0.

Definition nameless_request : ContactRequest :=
  request (payload (JString "") (JString "Doe") (JString "john@example.com")
             (JString "Hi") (JString "Hello") (JString "")) 0.

Definition repeated (n : nat) (c : ascii) : string :=
  String.string_of_list_ascii (replicate n c).

Definition sized_request (n : nat) : ContactRequest :=
  request (payload (JString "John") (JString "Doe") (JString "john@example.com")
             (JString "Hi") (JString (repeated n "a")) (JString "")) 0.

(** A blank first name and a message of a thousand [<]. *)
Definition stretching_request : ContactRequest :=
  request (payload (JString " ") (JString "Doe") (JString "john@example.com")
             (JString "Hi") (JString (repeated 1000 "<")) (JString "")) 0.

Definition admin_request (h : option string) (pg lim : option string) : AdminRequest :=
  {| authorization := h; query_page := pg; query_limit := lim; admin_now := 0 |}.

Definition run_contact : ContactRequest → World → Outcome * World :=
  contact_handler has_at provider_up store_up decimal_clock sample_env.

(** The bot is told that all went well. *)
Lemma honeypot_fake_success_witness :
  run_contact spam_request empty_world =
    (Responded (respond 200 Success),
     with_console
       (fun out =>
          out ++ [[("timestamp", JString "0"); ("type", JString "SPAM_BLOCKED");
                   ("ip", JString "203.0.113.7")]]) empty_world).
Proof.
  refine (proj1 (honeypot_fake_success has_at provider_up store_up decimal_clock
                   sample_env spam_request empty_world "Acme Corp" _ _)).
  - reflexivity.
  - discriminate.
Defined.

(** C6, the counterexample: a payload without a first name, behind a filled
    honeypot, is answered 200 and not 400. *)
Lemma missing_fields_behind_honeypot :
  missing (firstName (body spam_request))
  ∧ (run_contact spam_request empty_world).1 = Responded (respond 200 Success)
  ∧ respond 200 Success ≠ respond 400 (Error "Missing required fields.").
Proof. split; [now left | split; [reflexivity | discriminate]]. Qed.

Lemma missing_fields_rejected_witness :
  run_contact nameless_request empty_world =
    (Responded (respond 400 (Error "Missing required fields.")), empty_world).
Proof.
  refine (missing_fields_rejected has_at provider_up store_up decimal_clock
            sample_env nameless_request empty_world _ _).
  - reflexivity.
  - left. right. reflexivity.
Defined.

Lemma message_length_boundary_witness :
  (run_contact (sized_request 1000) empty_world).1 = Responded (respond 200 Success)
  ∧ run_contact (sized_request 1001) empty_world =
      (Responded (respond 400 (Error "Message must be less than 1000 characters")),
       empty_world).
Proof.
  assert (Hne : ∀ c s, String c s ≠ "") by discriminate.
  split.
  - refine (proj2 (proj1 (message_length_boundary has_at provider_up store_up
                     decimal_clock sample_env (sized_request 1000) empty_world
                     "John" "Doe" "john@example.com" (repeated 1000 "a")
                     eq_refl eq_refl (Hne _ _) eq_refl (Hne _ _) eq_refl (Hne _ _)
                     eq_refl _ eq_refl) _) "Hi" _ eq_refl _ eq_refl eq_refl).
    + vm_compute. lia.
    + vm_compute. reflexivity.
    + reflexivity.
  - refine (proj2 (message_length_boundary has_at provider_up store_up
                     decimal_clock sample_env (sized_request 1001) empty_world
                     "John" "Doe" "john@example.com" (repeated 1001 "a")
                     eq_refl eq_refl (Hne _ _) eq_refl (Hne _ _) eq_refl (Hne _ _)
                     eq_refl _ eq_refl) _).
    + vm_compute. lia.
    + vm_compute. lia.
Defined.

Lemma absent_subject_unanswered_witness :
  ∃ m, run_contact readme_request empty_world = (Unhandled m, empty_world).
Proof.
  refine (absent_subject_unanswered has_at provider_up store_up decimal_clock
            sample_env readme_request empty_world _ _ _); reflexivity.
Defined.

(** The README's test submission, end to end. *)
Example readme_request_unanswered :
  run_contact readme_request empty_world =
    (Unhandled "Expected a string but received a undefined", empty_world).
Proof. reflexivity. Qed.

(** A script tag reaches the provider and the store escaped. *)
Lemma accepted_submission_is_escaped_witness :
  ∃ mail row,
    provider_calls (run_contact script_request empty_world).2 = [mail]
    ∧ messages (run_contact script_request empty_world).2 = [row]
    ∧ p_message (columns row) = escape_string "<script>alert(1)</script>"
    ∧ p_email (columns row) = JString "john@example.com".
Proof.
  destruct (accepted_submission_is_escaped has_at provider_up store_up
              decimal_clock sample_env script_request empty_world
              (run_contact script_request empty_world).2 eq_refl eq_refl)
    as (f & l & sj & m & mail & row & _ & _ & _ & Hm & Hcalls & Hrows & _ & _
        & _ & _ & _ & _ & _ & Hpm & Hpe & _).
  exists mail, row. injection Hm as <-.
  repeat split; assumption.
Defined.

Example entities :
  escape_string
    (String.string_of_list_ascii
       (map ascii_of_nat [38; 34; 39; 60; 62; 47; 92; 96; 65]%nat))
  = "&amp;&quot;&#x27;&lt;&gt;&#x2F;&#x5C;&#96;A".
Proof. reflexivity. Qed.

Example script_is_escaped :
  escape_string "<script>alert(1)</script>"
  = "&lt;script&gt;alert(1)&lt;&#x2F;script&gt;".
Proof. reflexivity. Qed.

(** The earlier variant stores the same submission as it came. *)
Example legacy_stores_raw :
  legacy_insert_values script_request !! 4%nat
  = Some (JString "<script>alert(1)</script>").
Proof. reflexivity. Qed.

Lemma dispatch_failure_answers_500_witness :
  ∃ w',
    contact_handler has_at provider_refusing store_up decimal_clock sample_env
      script_request empty_world =
      (Responded
         (respond 500 (Error "Failed to send message. Please try again later.")),
       w')
    ∧ messages w' = [].
Proof.
  destruct (dispatch_failure_answers_500 has_at provider_refusing store_up
              decimal_clock sample_env script_request empty_world
              {| sanitizedMessage := escape_string "<script>alert(1)</script>";
                 sanitizedFirstName := escape_string "John";
                 sanitizedLastName := escape_string "Doe";
                 sanitizedSubject := escape_string "Hi" |}
              "Invalid API key" eq_refl eq_refl eq_refl (or_intror eq_refl))
    as (w' & em & Hout & Hrows & _).
  exists w'. split; assumption.
Defined.

(** Seven requests from one address within a second, then one an hour later. *)
Definition burst : list ContactRequest :=
  map (request (body script_request)) [1; 2; 3; 4; 5; 6].

Lemma rate_limit_window_witness :
  (∀ i sv,
     (serve has_at provider_up store_up decimal_clock sample_env
        (script_request :: burst) empty_world).1 !! i = Some sv →
     (i < 7)%nat → reached sv = bool_decide (i < 5)%nat)
  ∧ (contactLimiter decimal_clock (request (body script_request) 3600000)
       (serve has_at provider_up store_up decimal_clock sample_env
          (script_request :: burst) empty_world).2).1 = None.
Proof.
  pose proof (rate_limit_window has_at provider_up store_up decimal_clock
                sample_env script_request burst empty_world) as [Hi Hlate].
  - exact I.
  - intros r Hr _. unfold burst in Hr.
    apply list_elem_of_fmap in Hr as (t & -> & Ht).
    repeat (apply elem_of_cons in Ht as [-> | Ht]; [reflexivity |]).
    now apply elem_of_nil in Ht.
  - split.
    + intros i sv Hsv Hlt.
      destruct ((script_request :: burst) !! i) as [r |] eqn:Hr.
      2:{ apply lookup_ge_None in Hr. simpl in Hr. lia. }
      assert (Hip : ip r = ip script_request).
      { do 7 (destruct i as [| i]; [injection Hr as <-; reflexivity |]).
        simpl in Hlt. lia. }
      destruct (Hi i sv r Hsv Hr Hip) as [-> _].
      do 7 (destruct i as [| i]; [reflexivity |]). lia.
    + apply (Hlate (request (body script_request) 3600000)); [reflexivity |].
      vm_compute. discriminate.
Defined.

(** C4, the counterexample: the header is "Bearer " followed by a text that
    is not the secret, and the request still reaches the listing. *)
Lemma bearer_tail_ignored :
  "Bearer s3cret x" = "Bearer " +:+ "s3cret x"
  ∧ Some "s3cret x" ≠ ADMIN_API_KEY sample_env
  ∧ adminAuth sample_env (admin_request (Some "Bearer s3cret x") None None) = Next.
Proof. split; [reflexivity | split; [discriminate | reflexivity]]. Qed.

Lemma listing_limit_uncapped_witness :
  admin_messages store_up decimal_clock
    (admin_request (Some "Bearer s3cret") None (Some "500")) empty_world
  = (respond 200 (Listing 1 500 0 0 []), empty_world)
  ∧ (admin_messages store_up decimal_clock
       (admin_request (Some "Bearer s3cret") (Some "-1") None) empty_world).1
    = respond 500 (Error "Failed to fetch messages").
Proof.
  destruct (listing_limit_uncapped store_up decimal_clock empty_world) as [H1 H2].
  split.
  - exact (H1 (admin_request (Some "Bearer s3cret") None (Some "500"))
             eq_refl eq_refl eq_refl eq_refl).
  - now rewrite (H2 (admin_request (Some "Bearer s3cret") (Some "-1") None)
                   eq_refl eq_refl eq_refl).
Defined.

(** C10, the counterexample: an accepted submission whose row has a first
    name that is empty after trimming and a body of 4000 characters (the
    store takes the row: the README's table has [message TEXT] and no check
    on the name). *)
Lemma stored_row_outgrows_model :
  (run_contact stretching_request empty_world).1 = Responded (respond 200 Success)
  ∧ ∃ row,
      messages (run_contact stretching_request empty_world).2 = [row]
      ∧ blank (p_first_name (columns row))
      ∧ String.length (p_message (columns row)) = 4000%nat.
Proof.
  split; [vm_compute; reflexivity |].
  eexists. split; [reflexivity |]. split; vm_compute; reflexivity.
Qed.

(** * Concrete runs of the further facts *)

Definition store_down (_ : Query) : option string := Some "connection refused".


Definition addressed_request (e : string) : ContactRequest :=
  request (payload (JString "John") (JString "Doe") (JString e)
             (JString "Hi") (JString "Hello") (JString "")) 0.

(** Three accepted submissions, at instants 10, 20 and 30. *)
Definition table_world : World :=
  (run_contact (request (body script_request) 30)
     (run_contact (request (body script_request) 20)
        (run_contact (request (body script_request) 10) empty_world).2).2).2.

Definition page_request (pg lim : string) : AdminRequest :=
  admin_request (Some "Bearer s3cret") (Some pg) (Some lim).

Lemma invalid_email_rejected_witness :
  run_contact (addressed_request "john.example.com") empty_world =
    (Responded (respond 400 (Error "Please provide a valid email address")),
     empty_world).
Proof.
  refine (invalid_email_rejected has_at provider_up store_up decimal_clock
            sample_env (addressed_request "john.example.com") empty_world
            "john.example.com" eq_refl eq_refl eq_refl eq_refl eq_refl _ eq_refl).
  discriminate.
Defined.


Lemma submission_succeeds_witness :
  (run_contact script_request empty_world).1 = Responded (respond 200 Success)
  ∧ console (run_contact script_request empty_world).2 =
      [[("timestamp", JString "0"); ("type", JString "SUCCESS");
        ("ip", JString "203.0.113.7"); ("email", JString "john@example.com");
        ("subject", JString "Hi")]].
Proof.
  assert (Hne : ∀ c s, String c s ≠ "") by discriminate.
  destruct (submission_succeeds has_at provider_up store_up decimal_clock
              sample_env script_request empty_world
              "John" "Doe" "john@example.com" "Hi" "<script>alert(1)</script>"
              eq_refl eq_refl (Hne _ _) eq_refl (Hne _ _) eq_refl (Hne _ _)
              eq_refl ltac:(vm_compute; lia) eq_refl eq_refl (Hne _ _)
              ltac:(vm_compute; lia) eq_refl eq_refl)
    as (Hout & _ & _ & Hlog & _).
  split; [exact Hout | exact Hlog].
Defined.

Lemma store_failure_after_dispatch_witness :
  (contact_handler has_at provider_up store_down decimal_clock sample_env
     script_request empty_world).1
  = Responded (respond 500 (Error "Failed to send message. Please try again later."))
  ∧ length (provider_calls
              (contact_handler has_at provider_up store_down decimal_clock
                 sample_env script_request empty_world).2) = 1%nat
  ∧ messages (contact_handler has_at provider_up store_down decimal_clock
                sample_env script_request empty_world).2 = [].
Proof.
  destruct (store_failure_after_dispatch has_at provider_up store_down
              decimal_clock sample_env script_request empty_world
              {| sanitizedMessage := escape_string "<script>alert(1)</script>";
                 sanitizedFirstName := escape_string "John";
                 sanitizedLastName := escape_string "Doe";
                 sanitizedSubject := escape_string "Hi" |}
              "connection refused" eq_refl eq_refl eq_refl eq_refl eq_refl)
    as (Hout & Hcalls & Hrows & _).
  split; [exact Hout |]. split; [now rewrite Hcalls | exact Hrows].
Defined.

Lemma answers_of_the_pipeline_witness :
  (status (respond 400 (Error "Missing required fields.")) = 200
   ∧ json (respond 400 (Error "Missing required fields.")) = Success)
  ∨ (status (respond 400 (Error "Missing required fields.")) = 500
     ∧ json (respond 400 (Error "Missing required fields."))
       = Error "Failed to send message. Please try again later.")
  ∨ (status (respond 400 (Error "Missing required fields.")) = 400
     ∧ (run_contact nameless_request empty_world).2 = empty_world
     ∧ ∃ text, json (respond 400 (Error "Missing required fields.")) = Error text
         ∧ text ∈ ["Missing required fields.";
                   "Please provide a valid email address";
                   "Email address is too long";
                   "Message must be less than 1000 characters"]).
Proof.
  exact (answers_of_the_pipeline has_at provider_up store_up decimal_clock
           sample_env nameless_request empty_world
           (respond 400 (Error "Missing required fields.")) eq_refl).
Defined.



Lemma listing_failure_witness :
  (admin_messages store_down decimal_clock (page_request "1" "20") table_world).1
  = respond 500 (Error "Failed to fetch messages").
Proof.
  now rewrite (listing_failure store_down decimal_clock (page_request "1" "20")
                 table_world "connection refused" (or_introl eq_refl)).
Defined.

Lemma adminAuth_sound_witness :
  ∃ key tail,
    ADMIN_API_KEY sample_env = Some key ∧ space_free key
    ∧ authorization (page_request "1" "20") = Some ("Bearer " +:+ tail)
    ∧ first_field tail = key.
Proof.
  exact (adminAuth_sound sample_env (page_request "1" "20") eq_refl).
Defined.

Definition smtp_up (_ : LegacyMail) : LegacySend := MailSent "<1@example.com>".
Definition smtp_down (_ : LegacyMail) : LegacySend :=
  MailFails "connect ECONNREFUSED" (JString "ECONNREFUSED").
Definition legacy_store_up (_ : list JSValue) : option (string * JSValue) := None.
Definition empty_legacy_world : LegacyWorld :=
  {| stdout := []; smtp_calls := []; legacy_table := [] |}.

Lemma legacy_stores_as_submitted_witness :
  legacy_table
    (legacy_contact_handler has_at decimal_clock sample_env smtp_up legacy_store_up
       script_request empty_legacy_world).2
  = [(0, [JString "John"; JString "Doe"; JString "john@example.com"; JString "Hi";
          JString "<script>alert(1)</script>"; JString "203.0.113.7"])].
Proof.
  destruct (legacy_stores_as_submitted has_at decimal_clock sample_env smtp_up
              legacy_store_up script_request empty_legacy_world
              (legacy_contact_handler has_at decimal_clock sample_env smtp_up
                 legacy_store_up script_request empty_legacy_world).2
              eq_refl eq_refl)
    as (f & l & sj & m & mail & Hf & Hl & Hsj & Hm & Htable & _).
  rewrite Htable. injection Hf as <-. injection Hl as <-.
  injection Hsj as <-. injection Hm as <-. reflexivity.
Defined.

Lemma legacy_smtp_failure_witness :
  (legacy_contact_handler has_at decimal_clock sample_env smtp_down legacy_store_up
     script_request empty_legacy_world).1
  = Responded (respond 500 (Error "Failed to send email"))
  ∧ legacy_table
      (legacy_contact_handler has_at decimal_clock sample_env smtp_down
         legacy_store_up script_request empty_legacy_world).2 = [].
Proof.
  destruct (legacy_smtp_failure has_at decimal_clock sample_env smtp_down
              legacy_store_up script_request empty_legacy_world
              {| sanitizedMessage := escape_string "<script>alert(1)</script>";
                 sanitizedFirstName := escape_string "John";
                 sanitizedLastName := escape_string "Doe";
                 sanitizedSubject := escape_string "Hi" |}
              "connect ECONNREFUSED" (JString "ECONNREFUSED")
              eq_refl eq_refl eq_refl eq_refl)
    as (Hout & Htable & _).
  split; [exact Hout | exact Htable].
Defined.
